(** * Storm alert system: triage and delivery pipeline

    A shallow embedding of the alert deduplicator, the priority scorer,
    the grid index, the token-bucket rate limiter and the delivery manager,
    with the properties stated for them.

    Conventions of the embedding:
    - Python [float] values are idealised: token counts and clock readings
      are exact rationals ([Q]); priority scores, which go through a
      logarithm, are real numbers ([R]). A coordinate, which is printed,
      keeps its sign bit beside its exact magnitude ([Fmt.float]).
    - Python [dict]s used as maps are [gmap]s, [set]s are [gset]s.
    - A method that updates [self] returns the new object next to its result.
    - Wall-clock reads ([time.time()], [datetime.utcnow()]) are an explicit
      argument of the call that performs them. *)

From Stdlib Require Import ZArith QArith Qround Qabs Reals Lqa Lra Lia List String Ascii Bool
  DecimalString Sorted Permutation.
From stdpp Require Import gmap strings list fin_maps.

(** ** MD5 (hashlib.md5), over bytes given as integers in [0, 256) *)

Module Md5.
Local Open Scope Z_scope.

Definition mask32 : Z := 4294967295.
Definition wrap32 (x : Z) : Z := x mod 4294967296.
Definition add32 (a b : Z) : Z := wrap32 (a + b).
Definition not32 (x : Z) : Z := Z.lxor x mask32.
Definition rotl32 (x c : Z) : Z :=
  Z.lor (wrap32 (Z.shiftl x c)) (Z.shiftr x (32 - c)).

Definition shifts : list Z :=
  [7; 12; 17; 22; 7; 12; 17; 22; 7; 12; 17; 22; 7; 12; 17; 22;
   5; 9; 14; 20; 5; 9; 14; 20; 5; 9; 14; 20; 5; 9; 14; 20;
   4; 11; 16; 23; 4; 11; 16; 23; 4; 11; 16; 23; 4; 11; 16; 23;
   6; 10; 15; 21; 6; 10; 15; 21; 6; 10; 15; 21; 6; 10; 15; 21].

Definition sines : list Z :=
  [3614090360; 3905402710; 606105819; 3250441966; 4118548399; 1200080426;
   2821735955; 4249261313; 1770035416; 2336552879; 4294925233; 2304563134;
   1804603682; 4254626195; 2792965006; 1236535329; 4129170786; 3225465664;
   643717713; 3921069994; 3593408605; 38016083; 3634488961; 3889429448;
   568446438; 3275163606; 4107603335; 1163531501; 2850285829; 4243563512;
   1735328473; 2368359562; 4294588738; 2272392833; 1839030562; 4259657740;
   2763975236; 1272893353; 4139469664; 3200236656; 681279174; 3936430074;
   3572445317; 76029189; 3654602809; 3873151461; 530742520; 3299628645;
   4096336452; 1126891415; 2878612391; 4237533241; 1700485571; 2399980690;
   4293915773; 2240044497; 1873313359; 4264355552; 2734768916; 1309151649;
   4149444226; 3174756917; 718787259; 3951481745].

Definition nthZ (l : list Z) (i : Z) : Z := nth (Z.to_nat i) l 0.

(** The message is followed by 0x80, zero bytes up to 56 modulo 64, and the
    bit length as a 64-bit little-endian integer. *)
Definition le_bytes (n : nat) (x : Z) : list Z :=
  map (fun i => Z.shiftr x (8 * Z.of_nat i) mod 256) (seq 0 n).

Definition pad (msg : list Z) : list Z :=
  let len := Z.of_nat (length msg) in
  msg ++ [128] ++ repeat 0 (Z.to_nat ((55 - len) mod 64)) ++ le_bytes 8 (8 * len).

Fixpoint le_word (bs : list Z) : Z :=
  match bs with
  | [] => 0
  | b :: r => b + 256 * le_word r
  end.

Fixpoint words (n : nat) (bs : list Z) : list Z :=
  match n with
  | O => []
  | S k => le_word (firstn 4 bs) :: words k (skipn 4 bs)
  end.

Fixpoint blocks (n : nat) (bs : list Z) : list (list Z) :=
  match n with
  | O => []
  | S k => words 16 (firstn 64 bs) :: blocks k (skipn 64 bs)
  end.

Definition step (m : list Z) (st : Z * Z * Z * Z) (i : Z) : Z * Z * Z * Z :=
  let '(a, b, c, d) := st in
  let '(f, g) :=
    if i <? 16 then (Z.lor (Z.land b c) (Z.land (not32 b) d), i)
    else if i <? 32 then (Z.lor (Z.land d b) (Z.land (not32 d) c), (5 * i + 1) mod 16)
    else if i <? 48 then (Z.lxor (Z.lxor b c) d, (3 * i + 5) mod 16)
    else (Z.lxor c (Z.lor b (not32 d)), (7 * i) mod 16) in
  let f' := add32 (add32 (add32 f a) (nthZ sines i)) (nthZ m g) in
  (d, add32 b (rotl32 f' (nthZ shifts i)), b, c).

Definition compress (st : Z * Z * Z * Z) (m : list Z) : Z * Z * Z * Z :=
  let '(a0, b0, c0, d0) := st in
  let '(a, b, c, d) := fold_left (step m) (map Z.of_nat (seq 0 64)) st in
  (add32 a0 a, add32 b0 b, add32 c0 c, add32 d0 d).

Definition digest (msg : list Z) : list Z :=
  let p := pad msg in
  let '(a, b, c, d) :=
    fold_left compress (blocks (length p / 64) p)
      (1732584193, 4023233417, 2562383102, 271733878) in
  le_bytes 4 a ++ le_bytes 4 b ++ le_bytes 4 c ++ le_bytes 4 d.

Definition hex_digit (x : Z) : ascii :=
  if x <? 10 then ascii_of_nat (Z.to_nat (48 + x))
  else ascii_of_nat (Z.to_nat (87 + x)).

Fixpoint hex (bs : list Z) : string :=
  match bs with
  | [] => EmptyString
  | b :: r => String (hex_digit (b / 16)) (String (hex_digit (b mod 16)) (hex r))
  end.

Fixpoint encode (s : string) : list Z :=
  match s with
  | EmptyString => []
  | String c r => Z.of_nat (nat_of_ascii c) :: encode r
  end.

(** [hashlib.md5(s.encode()).hexdigest()] for a string of ASCII characters. *)
Definition hexdigest (s : string) : string := hex (digest (encode s)).

End Md5.

(** ** Text formatting used by the fingerprint *)

Module Fmt.
Local Open Scope Z_scope.

(** Decimal digits of a non-negative integer ([str(n)]). *)
Definition dec (n : Z) : string := NilZero.string_of_uint (N.to_uint (Z.to_N n)).

(** [%02d], [%04d] and [%06d] for a non-negative integer. *)
Definition pad2 (n : Z) : string := if n <? 10 then "0" +:+ dec n else dec n.
Definition pad4 (n : Z) : string :=
  if n <? 10 then "000" +:+ dec n
  else if n <? 100 then "00" +:+ dec n
  else if n <? 1000 then "0" +:+ dec n else dec n.
Definition pad6 (n : Z) : string := pad2 (n / 10000) +:+ pad4 (n mod 10000).

(** Rounding of a non-negative rational to the nearest integer, ties to
    even: the rounding [format] applies to the exact value of a float. *)
Definition round_half_even (q : Q) : Z :=
  let f := Qfloor q in
  match Qcompare (q - inject_Z f) (1 # 2) with
  | Lt => f
  | Gt => f + 1
  | Eq => if Z.even f then f else f + 1
  end.

(** A float as far as its formatting goes: the sign bit and the magnitude,
    read through [Qabs]. The sign bit tells -0.0 from 0.0. *)
Record float : Type := mk_float {
  sign_bit : bool;
  magnitude : Q
}.

(** The float of a rational: negative values have the sign bit set. *)
Definition of_Q (q : Q) : float :=
  {| sign_bit := if Qlt_le_dec q 0 then true else false; magnitude := Qabs q |}.

(** The number a float stands for; -0.0 and 0.0 stand for the same. *)
Definition to_Q (x : float) : Q :=
  if sign_bit x then (- Qabs (magnitude x))%Q else Qabs (magnitude x).

(** 0.0, also what the integer 0 formats as, and -0.0. *)
Definition zero : float := {| sign_bit := false; magnitude := 0 |}.
Definition neg_zero : float := {| sign_bit := true; magnitude := 0 |}.

(** [f"{x:.2f}"]: sign, integer part, two decimals. The sign printed is the
    sign bit: a negative value that rounds to zero, and -0.0 itself, print
    as "-0.00". *)
Definition format_2f (x : float) : string :=
  let n := round_half_even (Qabs (magnitude x) * 100) in
  (if sign_bit x then "-" else "") +:+ dec (n / 100) +:+ "." +:+ pad2 (n mod 100).

End Fmt.

(** ** datetime values, as far as the fingerprint uses them *)

Module Datetime.
Local Open Scope Z_scope.

(** A parsed timestamp. [utcoffset] is [None] for a naive value and the
    offset in minutes for an aware one. *)
Record datetime : Type := mk_datetime {
  year : Z; month : Z; day : Z;
  hour : Z; minute : Z; second : Z; microsecond : Z;
  utcoffset : option Z
}.

(** [ts.replace(minute=m, second=0, microsecond=0)] *)
Definition replace_minute (ts : datetime) (m : Z) : datetime :=
  {| year := year ts; month := month ts; day := day ts; hour := hour ts;
     minute := m; second := 0; microsecond := 0; utcoffset := utcoffset ts |}.

Definition format_offset (o : option Z) : string :=
  match o with
  | None => ""
  | Some m =>
      (if m <? 0 then "-" else "+") +:+ Fmt.pad2 (Z.abs m / 60) +:+ ":" +:+ Fmt.pad2 (Z.abs m mod 60)
  end.

(** [ts.isoformat()] *)
Definition isoformat (ts : datetime) : string :=
  Fmt.pad4 (year ts) +:+ "-" +:+ Fmt.pad2 (month ts) +:+ "-" +:+ Fmt.pad2 (day ts)
  +:+ "T" +:+ Fmt.pad2 (hour ts) +:+ ":" +:+ Fmt.pad2 (minute ts) +:+ ":" +:+ Fmt.pad2 (second ts)
  +:+ (if microsecond ts =? 0 then "" else "." +:+ Fmt.pad6 (microsecond ts))
  +:+ format_offset (utcoffset ts).

End Datetime.

(** ** alerts/deduplication.py *)

Module Dedup.
Import Datetime.
Local Open Scope Z_scope.

(** The alert dictionary, restricted to the keys the deduplicator reads.
    A key that is absent is [None]; the timestamp is held parsed. *)
Record Alert : Type := mk_alert {
  a_type : option string;
  a_severity : option string;
  a_latitude : option Fmt.float;
  a_longitude : option Fmt.float;
  a_timestamp : option datetime
}.

Record AlertFingerprint : Type := mk_fingerprint {
  alert_type : string;
  location_hash : string;
  severity : string;
  time_bucket : string
}.

Definition to_string (fp : AlertFingerprint) : string :=
  alert_type fp +:+ ":" +:+ location_hash fp +:+ ":" +:+ severity fp +:+ ":" +:+ time_bucket fp.

Definition BUCKET_MINUTES : Z := 15.
Definition CACHE_TTL_HOURS : Z := 24.

(** The shared store: each key with the time (in seconds) it expires at.
    A key is held up to and including that time, and gone once the clock
    is past it. *)
Definition redis_exists (store : gmap string Z) (now : Z) (key : string) : bool :=
  match store !! key with
  | Some expiry => now <=? expiry
  | None => false
  end.

Definition redis_setex (store : gmap string Z) (now : Z) (key : string) (ttl : Z)
  : gmap string Z := <[key := now + ttl]> store.

(** The store operation that raises during a call, if any. *)
Inductive RedisOp : Type := OpExists | OpSetex.

(** What a call reads from outside the object. *)
Record Env : Type := mk_env {
  utcnow : datetime;             (* datetime.utcnow() *)
  redis_now : Z;                 (* the clock of the shared store, seconds *)
  redis_connect : option (gmap string Z);  (* redis.from_url; None on ImportError *)
  redis_fault : option RedisOp
}.

Record AlertDeduplicator : Type := mk_dedup {
  redis_url : option string;
  _local_cache : gset string;
  _redis_client : option (gmap string Z);
  processed : Z;
  duplicates : Z
}.

(** [AlertDeduplicator(redis_url)] *)
Definition new (url : option string) : AlertDeduplicator :=
  {| redis_url := url; _local_cache := ∅; _redis_client := None;
     processed := 0; duplicates := 0 |}.

Definition set_client (d : AlertDeduplicator) (c : option (gmap string Z)) : AlertDeduplicator :=
  {| redis_url := redis_url d; _local_cache := _local_cache d; _redis_client := c;
     processed := processed d; duplicates := duplicates d |}.

Definition truthy (s : option string) : bool :=
  match s with
  | Some (String _ _) => true
  | _ => false
  end.

Definition _get_redis (env : Env) (d : AlertDeduplicator)
  : option (gmap string Z) * AlertDeduplicator :=
  match _redis_client d with
  | None =>
      if truthy (redis_url d)
      then (redis_connect env, set_client d (redis_connect env))
      else (None, d)
  | Some c => (Some c, d)
  end.

Definition location_string (alert : Alert) : string :=
  Fmt.format_2f (default Fmt.zero (a_latitude alert)) +:+ "," +:+
  Fmt.format_2f (default Fmt.zero (a_longitude alert)).

Definition _create_fingerprint (now : datetime) (alert : Alert) : AlertFingerprint :=
  let location := location_string alert in
  let location_hash := String.substring 0 8 (Md5.hexdigest location) in
  let timestamp := default now (a_timestamp alert) in
  let bucket := replace_minute timestamp (minute timestamp / BUCKET_MINUTES * BUCKET_MINUTES) in
  {| alert_type := default "unknown"%string (a_type alert);
     location_hash := location_hash;
     severity := default "unknown"%string (a_severity alert);
     time_bucket := isoformat bucket |}.

Definition count_processed (d : AlertDeduplicator) : AlertDeduplicator :=
  {| redis_url := redis_url d; _local_cache := _local_cache d;
     _redis_client := _redis_client d;
     processed := processed d + 1; duplicates := duplicates d |}.

Definition count_duplicate (d : AlertDeduplicator) : AlertDeduplicator :=
  {| redis_url := redis_url d; _local_cache := _local_cache d;
     _redis_client := _redis_client d;
     processed := processed d; duplicates := duplicates d + 1 |}.

Definition cache_add (d : AlertDeduplicator) (key : string) : AlertDeduplicator :=
  {| redis_url := redis_url d; _local_cache := {[ key ]} ∪ _local_cache d;
     _redis_client := _redis_client d;
     processed := processed d; duplicates := duplicates d |}.

(** The tail of [is_duplicate]: the in-process set. *)
Definition local_check (d : AlertDeduplicator) (key : string) : bool * AlertDeduplicator :=
  if decide (key ∈ _local_cache d)
  then (true, count_duplicate d)
  else (false, cache_add d key).

Definition is_fault (env : Env) (op : RedisOp) : bool :=
  match redis_fault env, op with
  | Some OpExists, OpExists => true
  | Some OpSetex, OpSetex => true
  | _, _ => false
  end.

Definition is_duplicate (env : Env) (d0 : AlertDeduplicator) (alert : Alert)
  : bool * AlertDeduplicator :=
  let d1 := count_processed d0 in
  let fingerprint := _create_fingerprint (utcnow env) alert in
  let key := to_string fingerprint in
  let '(redis, d) := _get_redis env d1 in
  match redis with
  | Some store =>
      if is_fault env OpExists then local_check d key
      else if redis_exists store (redis_now env) ("alert:fp:" +:+ key)
      then (true, count_duplicate d)
      else if is_fault env OpSetex then local_check d key
      else (false, set_client d
              (Some (redis_setex store (redis_now env) ("alert:fp:" +:+ key)
                       (CACHE_TTL_HOURS * 3600))))
  | None => local_check d key
  end.

Definition clear_cache (d : AlertDeduplicator) : AlertDeduplicator :=
  {| redis_url := redis_url d; _local_cache := ∅;
     _redis_client := _redis_client d;
     processed := processed d; duplicates := duplicates d |}.

(** A run of [is_duplicate] calls on one deduplicator, results dropped. *)
Definition run (calls : list (Env * Alert)) (d : AlertDeduplicator) : AlertDeduplicator :=
  fold_left (fun d c => snd (is_duplicate (fst c) d (snd c))) calls d.

(** [is_duplicate] on each call in turn: the results and the final object. *)
Fixpoint run_results (calls : list (Env * Alert)) (d : AlertDeduplicator)
  : list bool * AlertDeduplicator :=
  match calls with
  | [] => ([], d)
  | c :: rest =>
      let '(r, d1) := is_duplicate (fst c) d (snd c) in
      let '(rs, d2) := run_results rest d1 in
      (r :: rs, d2)
  end.

(** The [duplicate_rate] property. *)
Definition duplicate_rate (d : AlertDeduplicator) : Q :=
  if processed d =? 0 then 0%Q
  else (inject_Z (duplicates d) / inject_Z (processed d))%Q.

Record Stats : Type := mk_stats {
  stats_processed : Z;
  stats_duplicates : Z;
  stats_duplicate_rate : Q;
  cache_size : Z
}.

Definition get_stats (d : AlertDeduplicator) : Stats :=
  {| stats_processed := processed d;
     stats_duplicates := duplicates d;
     stats_duplicate_rate := duplicate_rate d;
     cache_size := Z.of_nat (size (_local_cache d)) |}.

End Dedup.

(** ** alerts/prioritizer.py *)

Module Prioritizer.
Local Open Scope R_scope.

Record WeatherAlert : Type := mk_alert {
  id : string;
  alert_type : string;
  severity : string;
  latitude : R;
  longitude : R;
  population_affected : Z;
  infrastructure_score : R;
  wind_speed : option R;
  precipitation : option R;
  timestamp : option string
}.

Inductive Level : Type := LOW | MEDIUM | HIGH | CRITICAL.

Record PriorityScore : Type := mk_score {
  alert_id : string;
  score : R;
  priority_level : Level;
  factors : list (string * R)
}.

Definition PRIORITY_LEVELS : list ((R * R) * Level) :=
  [ ((0, 3 / 10), LOW);
    ((3 / 10, 6 / 10), MEDIUM);
    ((6 / 10, 8 / 10), HIGH);
    ((8 / 10, 1), CRITICAL) ].

Definition SEVERITY_WEIGHTS : list (string * R) :=
  [ ("minor"%string, 2 / 10);
    ("moderate"%string, 4 / 10);
    ("severe"%string, 7 / 10);
    ("extreme"%string, 1) ].

Definition _feature_names : list string :=
  [ "severity_score"; "population_log"; "infrastructure_score";
    "wind_factor"; "precipitation_factor" ]%string.

(** [str.lower()] on ASCII letters. *)
Definition lower_char (c : ascii) : ascii :=
  let n := nat_of_ascii c in
  if (65 <=? n)%nat && (n <=? 90)%nat then ascii_of_nat (n + 32) else c.

Fixpoint lower (s : string) : string :=
  match s with
  | EmptyString => EmptyString
  | String c r => String (lower_char c) (lower r)
  end.

(** [d.get(key, dflt)] on a dictionary given by its items. *)
Fixpoint dict_get (d : list (string * R)) (key : string) (dflt : R) : R :=
  match d with
  | [] => dflt
  | (k, v) :: r => if String.eqb k key then v else dict_get r key dflt
  end.

(** [np.log1p], for an argument above -1 (at -1 and below numpy returns
    -inf and NaN, which the reals do not have). *)
Definition log1p (x : R) : R := ln (1 + x).

Definition _extract_features (alert : WeatherAlert) : list R :=
  let severity_score := dict_get SEVERITY_WEIGHTS (lower (severity alert)) (5 / 10) in
  let population_log := log1p (IZR (population_affected alert)) / 15 in
  let infrastructure := infrastructure_score alert in
  let wind_factor := default 0 (wind_speed alert) / 200 in
  let precip_factor := default 0 (precipitation alert) / 500 in
  [severity_score; population_log; infrastructure; wind_factor; precip_factor].

(** [np.dot] of two vectors. *)
Fixpoint dot (u v : list R) : R :=
  match u, v with
  | x :: u', y :: v' => x * y + dot u' v'
  | _, _ => 0
  end.

(** [np.clip(x, lo, hi)] *)
Definition clip (x lo hi : R) : R := Rmin (Rmax x lo) hi.

(** The loop over [PRIORITY_LEVELS.items()]: the first bin with
    [low <= score < high] decides, and the loop leaves [dflt] otherwise. *)
Fixpoint find_level (bins : list ((R * R) * Level)) (s : R) (dflt : Level) : Level :=
  match bins with
  | [] => dflt
  | ((low, high), level) :: rest =>
      if Rle_dec low s
      then if Rlt_dec s high then level else find_level rest s dflt
      else find_level rest s dflt
  end.

Definition weights : list R := [25 / 100; 30 / 100; 20 / 100; 15 / 100; 10 / 100].

Definition calculate_priority (alert : WeatherAlert) : PriorityScore :=
  let features := _extract_features alert in
  let score := dot features weights in
  let score := clip score 0 1 in
  let priority_level := find_level PRIORITY_LEVELS score MEDIUM in
  {| alert_id := id alert;
     score := score;
     priority_level := priority_level;
     factors := combine _feature_names features |}.

(** [list.sort(key=..., reverse=True)] is a stable sort: elements with equal
    keys keep their order. It is modelled by a stable insertion sort, each
    element going in front of the first one whose key is not greater. *)
Fixpoint insert_desc {A : Type} (key : A -> R) (x : A) (l : list A) : list A :=
  match l with
  | [] => [x]
  | y :: r => if Rlt_dec (key x) (key y) then y :: insert_desc key x r else x :: y :: r
  end.

Definition sort_desc {A : Type} (key : A -> R) (l : list A) : list A :=
  fold_right (insert_desc key) [] l.

Definition prioritize_batch (alerts : list WeatherAlert) : list PriorityScore :=
  let scores := map calculate_priority alerts in
  sort_desc score scores.

End Prioritizer.

(** ** notifications/channels.py and notifications/delivery.py *)

Module Delivery.
Local Open Scope Z_scope.

Record NotificationPayload : Type := mk_payload {
  title : string;
  message : string;
  priority : string;
  data : list (string * string);
  recipient : string
}.

Record DeliveryResult : Type := mk_result {
  channel : string;
  success : bool;
  message_id : option string;
  error : option string
}.

(** The channel interface. [send] either completes with a result or raises;
    a raised exception is carried as its message, [str(e)]. *)
Record NotificationChannel : Type := mk_channel {
  name : string;
  send : NotificationPayload -> DeliveryResult + string;
  validate_recipient : string -> bool
}.

(** [c in s] for a single character. *)
Fixpoint contains (c : ascii) (s : string) : bool :=
  match s with
  | EmptyString => false
  | String x r => Ascii.eqb x c || contains c r
  end.

Definition EmailChannel : NotificationChannel :=
  {| name := "email";
     send := fun _ => inl (mk_result "email" true (Some "msg-001"%string) None);
     validate_recipient := fun r => contains "@" r && contains "." r |}.

Definition SMSChannel : NotificationChannel :=
  {| name := "sms";
     send := fun _ => inl (mk_result "sms" true (Some "sms-001"%string) None);
     validate_recipient := fun r =>
       String.prefix "+" r && (10 <=? Z.of_nat (String.length r)) |}.

Definition WebhookChannel : NotificationChannel :=
  {| name := "webhook";
     send := fun _ => inl (mk_result "webhook" true (Some "wh-001"%string) None);
     validate_recipient := fun r => String.prefix "http" r |}.

Record DeliveryTask : Type := mk_task {
  id : string;
  payload : NotificationPayload;
  channels : list string;
  created_at : Z;
  attempts : Z;
  max_attempts : Z
}.

Record DeliveryReport : Type := mk_report {
  task_id : string;
  results : list DeliveryResult;
  completed_at : Z;
  total_channels : Z;
  successful : Z;
  failed : Z
}.

Record DeliveryManager : Type := mk_manager {
  _channels : gmap string NotificationChannel
}.

Definition register_channel (m : DeliveryManager) (c : NotificationChannel) : DeliveryManager :=
  {| _channels := <[name c := c]> (_channels m) |}.

(** One iteration of the loop of [deliver]: what is appended to [results]. *)
Definition attempt (m : DeliveryManager) (task : DeliveryTask) (channel_name : string)
  : DeliveryResult :=
  match _channels m !! channel_name with
  | None => mk_result channel_name false None (Some "Channel not found"%string)
  | Some channel =>
      if negb (validate_recipient channel (recipient (payload task)))
      then mk_result channel_name false None (Some "Invalid recipient"%string)
      else match send channel (payload task) with
           | inl result => result
           | inr e => mk_result channel_name false None (Some e)
           end
  end.

(** [sum(1 for r in results if r.success)] *)
Fixpoint count_success (rs : list DeliveryResult) : Z :=
  match rs with
  | [] => 0
  | r :: rest => (if success r then 1 else 0) + count_success rest
  end.

Definition deliver (m : DeliveryManager) (now : Z) (task : DeliveryTask) : DeliveryReport :=
  let results :=
    fold_left (fun results channel_name => results ++ [attempt m task channel_name])
      (channels task) [] in
  let successful := count_success results in
  {| task_id := id task;
     results := results;
     completed_at := now;
     total_channels := Z.of_nat (length (channels task));
     successful := successful;
     failed := Z.of_nat (length (channels task)) - successful |}.

End Delivery.

(** ** Numbers shared by the rate limiter and the grid index *)

Module Num.

(** [int(x)] for a float: truncation toward zero. *)
Definition int_of_Q (q : Q) : Z := Z.quot (Qnum q) (Z.pos (Qden q)).

(** [min(a, b)]: the second argument only when it is strictly smaller. *)
Definition qmin (a b : Q) : Q := if Qlt_le_dec b a then b else a.

(** [range(lo, hi)] *)
Definition range (lo hi : Z) : list Z :=
  map (fun i => (lo + Z.of_nat i)%Z) (seq 0 (Z.to_nat (hi - lo))).

End Num.

(** ** middleware/rate_limiter.py *)

Module RateLimit.
Import Num.
Local Open Scope Q_scope.

Record RateLimitConfig : Type := mk_config {
  requests_per_minute : Z;
  requests_per_hour : Z;
  burst_size : Z;
  block_duration_seconds : Z
}.

Definition default_config : RateLimitConfig := mk_config 60 1000 10 300.

Record RateLimitResult : Type := mk_result {
  allowed : bool;
  remaining : Z;
  reset_at : Q;
  retry_after : option Z
}.

Record TokenBucket : Type := mk_bucket {
  rate : Q;
  capacity : Z;
  _tokens : Q;
  _last_update : Q
}.

(** [TokenBucket(rate, capacity)], created when the clock reads [now]. *)
Definition new_bucket (now : Q) (rate : Q) (capacity : Z) : TokenBucket :=
  {| rate := rate; capacity := capacity;
     _tokens := inject_Z capacity; _last_update := now |}.

Definition _refill (now : Q) (b : TokenBucket) : TokenBucket :=
  let elapsed := now - _last_update b in
  {| rate := rate b; capacity := capacity b;
     _tokens := qmin (inject_Z (capacity b)) (_tokens b + elapsed * rate b);
     _last_update := now |}.

Definition consume (now : Q) (tokens : Z) (b : TokenBucket) : bool * TokenBucket :=
  let b := _refill now b in
  if Qle_bool (inject_Z tokens) (_tokens b)
  then (true, {| rate := rate b; capacity := capacity b;
                 _tokens := _tokens b - inject_Z tokens;
                 _last_update := _last_update b |})
  else (false, b).

(** The [tokens] property: it refills, then truncates. *)
Definition tokens (now : Q) (b : TokenBucket) : Z * TokenBucket :=
  let b := _refill now b in (int_of_Q (_tokens b), b).

Record RateLimiter : Type := mk_limiter {
  config : RateLimitConfig;
  _buckets : gmap string TokenBucket;
  _blocked : gmap string Q
}.

(** [RateLimiter(config)] *)
Definition new (c : RateLimitConfig) : RateLimiter :=
  {| config := c; _buckets := ∅; _blocked := ∅ |}.

Definition _get_bucket (now : Q) (key : string) (l : RateLimiter) : TokenBucket :=
  match _buckets l !! key with
  | Some b => b
  | None =>
      let rate := inject_Z (requests_per_minute (config l)) / 60 in
      new_bucket now rate (burst_size (config l))
  end.

(** [check] past the block test: [blocked] is the block table the call goes
    on with. All clock reads of one call return [now]. *)
Definition check_bucket (now : Q) (key : string) (l : RateLimiter) (blocked : gmap string Q)
  : RateLimitResult * RateLimiter :=
  let bucket := _get_bucket now key l in
  let '(allowed, bucket) := consume now 1 bucket in
  let blocked :=
    if negb allowed
    then <[key := now + inject_Z (block_duration_seconds (config l))]> blocked
    else blocked in
  let '(remaining, bucket) := tokens now bucket in
  ({| allowed := allowed;
      remaining := remaining;
      reset_at := now + 60;
      retry_after := if negb allowed then Some 60%Z else None |},
   {| config := config l;
      _buckets := <[key := bucket]> (_buckets l);
      _blocked := blocked |}).

Definition check (now : Q) (key : string) (l : RateLimiter) : RateLimitResult * RateLimiter :=
  match _blocked l !! key with
  | Some block_until =>
      if Qlt_le_dec now block_until
      then ({| allowed := false;
               remaining := 0;
               reset_at := block_until;
               retry_after := Some (int_of_Q (block_until - now)) |}, l)
      else check_bucket now key l (delete key (_blocked l))
  | None => check_bucket now key l (_blocked l)
  end.

Definition reset (key : string) (l : RateLimiter) : RateLimiter :=
  {| config := config l;
     _buckets := delete key (_buckets l);
     _blocked := delete key (_blocked l) |}.

(** Checks of one key at the given clock readings, in order. *)
Fixpoint checks (times : list Q) (key : string) (l : RateLimiter)
  : list RateLimitResult * RateLimiter :=
  match times with
  | [] => ([], l)
  | t :: rest =>
      let '(r, l) := check t key l in
      let '(rs, l) := checks rest key l in
      (r :: rs, l)
  end.

(** Operations on one bucket, each at a clock reading. *)
Inductive BucketOp : Type :=
  | OpConsume (now : Q) (n : Z)
  | OpTokens (now : Q)
  | OpRefill (now : Q).

Definition op_time (o : BucketOp) : Q :=
  match o with
  | OpConsume now _ => now
  | OpTokens now => now
  | OpRefill now => now
  end.

Definition apply_op (b : TokenBucket) (o : BucketOp) : TokenBucket :=
  match o with
  | OpConsume now n => snd (consume now n b)
  | OpTokens now => snd (tokens now b)
  | OpRefill now => _refill now b
  end.

End RateLimit.

(** ** processing/optimizer.py: GeoIndex *)

Module Geo.
Import Num.
Local Open Scope Z_scope.

Section Index.
Context {Item : Type}.

Record GeoIndex : Type := mk_index {
  resolution : Q;
  _grid : gmap (Z * Z) (list Item)
}.

(** [GeoIndex(resolution)] *)
Definition new (res : Q) : GeoIndex := {| resolution := res; _grid := ∅ |}.

(** [GeoIndex()], with the default resolution of 0.1 degrees. *)
Definition default_index : GeoIndex := new (1 # 10).

(** Division by a zero resolution raises: [None]. *)
Definition _get_cell (g : GeoIndex) (lat lon : Q) : option (Z * Z) :=
  if Qeq_bool (resolution g) 0 then None
  else Some (int_of_Q (lat / resolution g), int_of_Q (lon / resolution g)).

Definition insert (g : GeoIndex) (item : Item) (lat lon : Q) : option GeoIndex :=
  match _get_cell g lat lon with
  | None => None
  | Some cell =>
      Some {| resolution := resolution g;
              _grid := <[cell := default [] (_grid g !! cell) ++ [item]]> (_grid g) |}
  end.

Definition query_radius (g : GeoIndex) (lat lon : Q) (radius_cells : Z) : option (list Item) :=
  match _get_cell g lat lon with
  | None => None
  | Some center =>
      Some (flat_map (fun dx =>
              flat_map (fun dy =>
                default [] (_grid g !! (fst center + dx, snd center + dy)))
                (range (- radius_cells) (radius_cells + 1)))
              (range (- radius_cells) (radius_cells + 1)))
  end.

Definition clear (g : GeoIndex) : GeoIndex := {| resolution := resolution g; _grid := ∅ |}.

End Index.
Arguments GeoIndex Item : clear implicits.

End Geo.

(** ** processing/optimizer.py: BatchProcessor and the metrics *)

Module Batch.
Local Open Scope Z_scope.

Section Items.
Context {Item : Type}.

(** [process_func] is an effectful callback: what is kept of it is whether
    one is set, and each call of it is reported as the batch it received. *)
Record BatchProcessor : Type := mk_batcher {
  batch_size : Z;
  flush_interval : Q;
  process_func : bool;
  _buffer : list Item;
  _last_flush : Q
}.

(** [BatchProcessor(batch_size, flush_interval, process_func)], created when
    the clock reads [now]. *)
Definition new (now : Q) (size : Z) (interval : Q) (func : bool) : BatchProcessor :=
  {| batch_size := size; flush_interval := interval; process_func := func;
     _buffer := []; _last_flush := now |}.

(** [_flush]: the new object and the batches handed to [process_func]. *)
Definition _flush (now : Q) (b : BatchProcessor) : BatchProcessor * list (list Item) :=
  match _buffer b with
  | [] => (b, [])
  | _ :: _ =>
      let batch := _buffer b in
      ({| batch_size := batch_size b; flush_interval := flush_interval b;
          process_func := process_func b; _buffer := []; _last_flush := now |},
       if process_func b then [batch] else [])
  end.

(** [add], under the lock; both clock reads of the call return [now]. *)
Definition add (now : Q) (item : Item) (b : BatchProcessor)
  : BatchProcessor * list (list Item) :=
  let b := {| batch_size := batch_size b; flush_interval := flush_interval b;
              process_func := process_func b; _buffer := _buffer b ++ [item];
              _last_flush := _last_flush b |} in
  let should_flush :=
    (batch_size b <=? Z.of_nat (length (_buffer b)))
    || (if Qlt_le_dec (flush_interval b) (now - _last_flush b) then true else false) in
  if should_flush then _flush now b else (b, []).

(** A run of [add] calls: the final object and all the batches handed to
    [process_func], in order. *)
Fixpoint adds (calls : list (Q * Item)) (b : BatchProcessor)
  : BatchProcessor * list (list Item) :=
  match calls with
  | [] => (b, [])
  | (now, item) :: rest =>
      let '(b1, out1) := add now item b in
      let '(b2, out2) := adds rest b1 in
      (b2, out1 ++ out2)
  end.

End Items.
Arguments BatchProcessor Item : clear implicits.

End Batch.

Module Metrics.
Local Open Scope Z_scope.

Record ProcessingMetrics : Type := mk_metrics {
  alerts_processed : Z;
  total_time_ms : Q;
  avg_latency_ms : Q;
  throughput_per_sec : Q;
  cache_hits : Z;
  cache_misses : Z
}.

(** [ProcessingMetrics()] *)
Definition initial : ProcessingMetrics := mk_metrics 0 0 0 0 0 0.

Definition _update_metrics (m : ProcessingMetrics) (count : Z) (elapsed_ms : Q)
  : ProcessingMetrics :=
  {| alerts_processed := alerts_processed m + count;
     total_time_ms := (total_time_ms m + elapsed_ms)%Q;
     avg_latency_ms := if 0 <? count then (elapsed_ms / inject_Z count)%Q else 0%Q;
     throughput_per_sec :=
       if Qlt_le_dec 0 elapsed_ms then (inject_Z count / elapsed_ms * 1000)%Q else 0%Q;
     cache_hits := cache_hits m;
     cache_misses := cache_misses m |}.

(** The updates of a run of [process_alerts] calls, each with the number of
    alerts and the time it took. *)
Definition updates (m : ProcessingMetrics) (calls : list (Z * Q)) : ProcessingMetrics :=
  fold_left (fun m c => _update_metrics m (fst c) (snd c)) calls m.

End Metrics.

(** ** Predicates used to state the properties *)

Module DedupProps.
Import Datetime Dedup.

(** Two timestamps in the same 15-minute window: same date, hour and UTC
    offset, same quarter of the hour. *)
Definition same_window (t1 t2 : datetime) : Prop :=
  year t1 = year t2 /\ month t1 = month t2 /\ day t1 = day t2 /\
  hour t1 = hour t2 /\ utcoffset t1 = utcoffset t2 /\
  (minute t1 / 15 = minute t2 / 15)%Z.

(** Two coordinates less than 0.005 degrees apart. *)
Definition jitter (x y : Fmt.float) : Prop :=
  (Qabs (Fmt.to_Q x - Fmt.to_Q y) < 5 # 1000)%Q.

(** Two coordinates with the same sign bit, both strictly within 0.005
    degrees of the same multiple [k / 100] of a hundredth of a degree. *)
Definition same_hundredth (x y : Fmt.float) : Prop :=
  Fmt.sign_bit x = Fmt.sign_bit y /\
  exists k : Z,
    (inject_Z k - (1 # 2) < Qabs (Fmt.magnitude x) * 100 /\
     Qabs (Fmt.magnitude x) * 100 < inject_Z k + (1 # 2))%Q /\
    (inject_Z k - (1 # 2) < Qabs (Fmt.magnitude y) * 100 /\
     Qabs (Fmt.magnitude y) * 100 < inject_Z k + (1 # 2))%Q.

(** An in-process deduplicator: no shared store is configured or connected. *)
Definition in_process (d : AlertDeduplicator) : Prop :=
  redis_url d = None /\ _redis_client d = None.

End DedupProps.

Module PrioritizerProps.
Import Prioritizer.
Local Open Scope R_scope.

(** The tier the specification assigns to a score: [0, 0.3) LOW,
    [0.3, 0.6) MEDIUM, [0.6, 0.8) HIGH, [0.8, 1.0] CRITICAL. It follows the
    specification, not the code. *)
Definition spec_tier (s : R) : Level :=
  if Rlt_dec s (3 / 10) then LOW
  else if Rlt_dec s (6 / 10) then MEDIUM
  else if Rlt_dec s (8 / 10) then HIGH
  else CRITICAL.

(** The assessments of a list that carry the score [s], in order. *)
Definition with_score (s : R) (l : list PriorityScore) : list PriorityScore :=
  List.filter (fun p => if Req_dec_T (score p) s then true else false) l.

(** Non-increasing in score. *)
Definition descending (l : list PriorityScore) : Prop :=
  Sorted (fun p q => score q <= score p) l.

End PrioritizerProps.

Module DeliveryProps.
Import Delivery.

(** The failure result of a channel. *)
Definition failure (channel_name e : string) : DeliveryResult :=
  mk_result channel_name false None (Some e).

(** The result [r] is the classification of [channel_name] for [task]:
    not registered, invalid recipient, raised fault, or the send's own
    result, the first that applies. *)
Definition classified (m : DeliveryManager) (task : DeliveryTask)
    (channel_name : string) (r : DeliveryResult) : Prop :=
  (_channels m !! channel_name = None -> r = failure channel_name "Channel not found") /\
  (forall ch, _channels m !! channel_name = Some ch ->
     validate_recipient ch (recipient (payload task)) = false ->
     r = failure channel_name "Invalid recipient") /\
  (forall ch e, _channels m !! channel_name = Some ch ->
     validate_recipient ch (recipient (payload task)) = true ->
     send ch (payload task) = inr e ->
     r = failure channel_name e) /\
  (forall ch res, _channels m !! channel_name = Some ch ->
     validate_recipient ch (recipient (payload task)) = true ->
     send ch (payload task) = inl res ->
     r = res).

(** [sum(1 for r in results if not r.success)] *)
Fixpoint count_failure (rs : list DeliveryResult) : Z :=
  match rs with
  | [] => 0
  | r :: rest => (if success r then 0 else 1) + count_failure rest
  end.

End DeliveryProps.

Module RateLimitProps.
Import RateLimit.
Local Open Scope Q_scope.

(** A key the limiter has not seen: no bucket and no block. *)
Definition unseen (key : string) (l : RateLimiter) : Prop :=
  _buckets l !! key = None /\ _blocked l !! key = None.

(** The token count is within [0, capacity]. *)
Definition within_capacity (b : TokenBucket) : Prop :=
  0 <= _tokens b /\ _tokens b <= inject_Z (capacity b).

(** The clock never runs backwards: each operation reads a time that is
    not before the previous reading [t]. *)
Fixpoint monotone (t : Q) (ops : list BucketOp) : Prop :=
  match ops with
  | [] => True
  | o :: rest => t <= op_time o /\ monotone (op_time o) rest
  end.

(** A consume asks for a non-negative number of tokens. *)
Definition valid_op (o : BucketOp) : Prop :=
  match o with
  | OpConsume _ n => (0 <= n)%Z
  | _ => True
  end.

(** The key is not blocked and its bucket, as [check] would find or create
    it at time [t0], holds [n] tokens of a capacity [cap], last refilled at
    [t0]. *)
Definition ready (t0 : Q) (key : string) (cap n : Z) (l : RateLimiter) : Prop :=
  _blocked l !! key = None /\
  _tokens (_get_bucket t0 key l) == inject_Z n /\
  _last_update (_get_bucket t0 key l) == t0 /\
  capacity (_get_bucket t0 key l) = cap.

(** Every result of the list is a denial. *)
Definition all_denied (rs : list RateLimitResult) : Prop :=
  Forall (fun r => allowed r = false) rs.

(** The bucket [check] finds or creates for the key at time [t0] holds less
    than one token and was last refilled at [t0]. *)
Definition drained (t0 : Q) (key : string) (l : RateLimiter) : Prop :=
  _tokens (_get_bucket t0 key l) < 1 /\ _last_update (_get_bucket t0 key l) == t0.

(** Every number of the configuration is an integer below 2^53 in absolute
    value: the floats the limiter computes with hold it exactly. *)
Definition exact_config (c : RateLimitConfig) : Prop :=
  (Z.abs (requests_per_minute c) < 2 ^ 53)%Z /\
  (Z.abs (burst_size c) < 2 ^ 53)%Z /\
  (Z.abs (block_duration_seconds c) < 2 ^ 53)%Z.

End RateLimitProps.

Module GeoProps.
Import Num Geo.
Local Open Scope Z_scope.

(** The cell the specification names: the floor of each quotient. It
    follows the specification, not the code. *)
Definition floor_cell (res lat lon : Q) : Z * Z :=
  (Qfloor (lat / res), Qfloor (lon / res)).

(** The cell the code computes: each quotient truncated toward zero. *)
Definition trunc_cell (res lat lon : Q) : Z * Z :=
  (int_of_Q (lat / res), int_of_Q (lon / res)).

(** The cells around [center], row by row, in the order of the two loops. *)
Definition neighborhood (center : Z * Z) (r : Z) : list (Z * Z) :=
  flat_map (fun dx => map (fun dy => (fst center + dx, snd center + dy)) (range (- r) (r + 1)))
    (range (- r) (r + 1)).

(** The Chebyshev distance of two cells. *)
Definition chebyshev (c d : Z * Z) : Z :=
  Z.max (Z.abs (fst c - fst d)) (Z.abs (snd c - snd d)).

(** The content of a cell: [_grid.get(cell, [])]. *)
Definition cell_items {Item : Type} (g : GeoIndex Item) (cell : Z * Z) : list Item :=
  default [] (_grid g !! cell).

End GeoProps.

(** ** Sample inputs *)

Module Samples.
Import Datetime.
Local Open Scope Z_scope.

(** A tornado report of 1 May 2024 at the given minute past noon. *)
Definition tornado (lat lon : Q) (min : Z) : Dedup.Alert :=
  {| Dedup.a_type := Some "tornado"%string;
     Dedup.a_severity := Some "extreme"%string;
     Dedup.a_latitude := Some (Fmt.of_Q lat);
     Dedup.a_longitude := Some (Fmt.of_Q lon);
     Dedup.a_timestamp := Some (mk_datetime 2024 5 1 12 min 0 0 None) |}.

(** The same report with the coordinates given as floats. *)
Definition tornado_at (lat lon : Fmt.float) (min : Z) : Dedup.Alert :=
  {| Dedup.a_type := Some "tornado"%string;
     Dedup.a_severity := Some "extreme"%string;
     Dedup.a_latitude := Some lat;
     Dedup.a_longitude := Some lon;
     Dedup.a_timestamp := Some (mk_datetime 2024 5 1 12 min 0 0 None) |}.

(** A call environment without a shared store: the UTC wall clock and the
    matching count of seconds. *)
Definition local_env (now : datetime) (seconds : Z) : Dedup.Env :=
  {| Dedup.utcnow := now; Dedup.redis_now := seconds;
     Dedup.redis_connect := None; Dedup.redis_fault := None |}.

Definition noon : Dedup.Env := local_env (mk_datetime 2024 5 1 12 8 0 0 None) 0.
(** Two days later: the 24 hours of [CACHE_TTL_HOURS] are over. *)
Definition two_days_later : Dedup.Env :=
  local_env (mk_datetime 2024 5 3 12 8 0 0 None) 172800.

(** An extreme hurricane over a metropolitan area of twenty million. *)
Definition hurricane : Prioritizer.WeatherAlert :=
  {| Prioritizer.id := "alert-900";
     Prioritizer.alert_type := "hurricane";
     Prioritizer.severity := "extreme";
     Prioritizer.latitude := 29%R;
     Prioritizer.longitude := (- 90)%R;
     Prioritizer.population_affected := 20000000;
     Prioritizer.infrastructure_score := 1%R;
     Prioritizer.wind_speed := Some 200%R;
     Prioritizer.precipitation := Some 500%R;
     Prioritizer.timestamp := None |}.

(** A channel whose transport is down: every send raises. *)
Definition PagerChannel : Delivery.NotificationChannel :=
  {| Delivery.name := "pager";
     Delivery.send := fun _ => inr "connection refused"%string;
     Delivery.validate_recipient := fun _ => true |}.

Definition manager : Delivery.DeliveryManager :=
  Delivery.register_channel
    (Delivery.register_channel
       (Delivery.register_channel (Delivery.mk_manager ∅) Delivery.EmailChannel)
       Delivery.SMSChannel)
    PagerChannel.

Definition task_for (recipient : string) (channels : list string) : Delivery.DeliveryTask :=
  {| Delivery.id := "task-1";
     Delivery.payload :=
       Delivery.mk_payload "Tornado warning" "Take shelter" "CRITICAL" [] recipient;
     Delivery.channels := channels;
     Delivery.created_at := 0;
     Delivery.attempts := 0;
     Delivery.max_attempts := 3 |}.

(** [insert] on an index whose resolution is not zero. *)
Definition add (item : string) (lat lon : Q) (g : Geo.GeoIndex string) : Geo.GeoIndex string :=
  default g (Geo.insert g item lat lon).

(** Four sirens around Oklahoma City. *)
Definition sirens : Geo.GeoIndex string :=
  add "siren-4" (3530 # 100) (- (9700 # 100))
    (add "siren-3" (3499 # 100) (- (9719 # 100))
       (add "siren-2" (3505 # 100) (- (9709 # 100))
          (add "siren-1" 35 (- (9700 # 100)) Geo.default_index))).

End Samples.

Module MetricsProps.
Local Open Scope Z_scope.

(** The alerts and the milliseconds of a run of calls, summed. *)
Fixpoint total_count (calls : list (Z * Q)) : Z :=
  match calls with
  | [] => 0
  | c :: rest => fst c + total_count rest
  end.

Fixpoint total_elapsed (calls : list (Z * Q)) : Q :=
  match calls with
  | [] => 0%Q
  | c :: rest => (snd c + total_elapsed rest)%Q
  end.

End MetricsProps.

(** ** More sample inputs *)

Module MoreSamples.
Import Datetime.
Local Open Scope Z_scope.

(** A deduplicator whose shared store is connected and empty. *)
Definition connected : Dedup.AlertDeduplicator :=
  {| Dedup.redis_url := Some "redis://cache:6379"%string;
     Dedup._local_cache := ∅;
     Dedup._redis_client := Some ∅;
     Dedup.processed := 0;
     Dedup.duplicates := 0 |}.

(** A call at the given second of the store's clock, on 1 May 2024 at
    12:08 UTC, with the store operation that fails, if any. *)
Definition store_env (seconds : Z) (fault : option Dedup.RedisOp) : Dedup.Env :=
  {| Dedup.utcnow := mk_datetime 2024 5 1 12 8 0 0 None;
     Dedup.redis_now := seconds;
     Dedup.redis_connect := Some ∅;
     Dedup.redis_fault := fault |}.

(** A limiter that blocked a key at time 0 for 300 seconds, its bucket
    empty. *)
Definition blocked_limiter : RateLimit.RateLimiter :=
  {| RateLimit.config := RateLimit.default_config;
     RateLimit._buckets := {[ "10.0.0.7"%string := RateLimit.mk_bucket 1 10 0 0 ]};
     RateLimit._blocked := {[ "10.0.0.7"%string := 300%Q ]} |}.

(** Items added to a batch processor, each with the clock reading of its
    add. *)
Definition letters : list (Q * string) :=
  [(0%Q, "a"); (0%Q, "b"); (0%Q, "c"); (5%Q, "d"); (5%Q, "e")]%string.

(** Batches of two, a flush interval of one second, created at time 0,
    with or without a handler. *)
Definition pairs (handler : bool) : Batch.BatchProcessor string :=
  Batch.new 0%Q 2 1%Q handler.

(** A minor frost warning for a thousand people. *)
Definition frost : Prioritizer.WeatherAlert :=
  {| Prioritizer.id := "alert-002";
     Prioritizer.alert_type := "frost";
     Prioritizer.severity := "minor";
     Prioritizer.latitude := 40%R;
     Prioritizer.longitude := (- 80)%R;
     Prioritizer.population_affected := 1000;
     Prioritizer.infrastructure_score := (2 / 10)%R;
     Prioritizer.wind_speed := Some 5%R;
     Prioritizer.precipitation := Some 0%R;
     Prioritizer.timestamp := None |}.

End MoreSamples.
(** * Properties *)

(** Linear arithmetic over the rationals and over the reals. *)
Ltac qlra := Lqa.lra.
Ltac rlra := Lra.lra.

(** Case analysis on the rational comparison in the goal. *)
Ltac case_compare :=
  match goal with
  | |- context [Qcompare ?a ?b] => destruct (Qcompare_spec a b)
  end.

(** ** Checks of the hash and the formatting against known values *)

Module Md5Facts.
Import Md5.

Example hexdigest_empty : hexdigest "" = "d41d8cd98f00b204e9800998ecf8427e"%string.
Proof. vm_compute. reflexivity. Qed.

Example hexdigest_abc : hexdigest "abc" = "900150983cd24fb0d6963f7d28e17f72"%string.
Proof. vm_compute. reflexivity. Qed.

Example hexdigest_location :
  hexdigest "35.00,-97.00" = "5ff1be37b224c2323ce4da0bbf90a0e6"%string.
Proof. vm_compute. reflexivity. Qed.

End Md5Facts.

Module FmtFacts.
Import Fmt Datetime.
Local Open Scope Z_scope.

Example format_2f_35004 : format_2f (of_Q (35004 # 1000)) = "35.00"%string.
Proof. reflexivity. Qed.
Example format_2f_35006 : format_2f (of_Q (35006 # 1000)) = "35.01"%string.
Proof. reflexivity. Qed.
Example format_2f_neg : format_2f (of_Q (- (1 # 1000))) = "-0.00"%string.
Proof. reflexivity. Qed.
Example format_2f_tie_even : format_2f (of_Q (125 # 1000)) = "0.12"%string.
Proof. reflexivity. Qed.
Example format_2f_tie_odd : format_2f (of_Q (375 # 1000)) = "0.38"%string.
Proof. reflexivity. Qed.
Example format_2f_big : format_2f (of_Q (- (12345 # 10))) = "-1234.50"%string.
Proof. reflexivity. Qed.
Example format_2f_zero : format_2f zero = "0.00"%string.
Proof. reflexivity. Qed.
Example format_2f_neg_zero : format_2f neg_zero = "-0.00"%string.
Proof. reflexivity. Qed.
Example isoformat_naive :
  isoformat (mk_datetime 2024 5 1 12 0 0 0 None) = "2024-05-01T12:00:00"%string.
Proof. reflexivity. Qed.
Example isoformat_micro :
  isoformat (mk_datetime 2024 5 1 12 7 33 250 None) = "2024-05-01T12:07:33.000250"%string.
Proof. reflexivity. Qed.
Example isoformat_aware :
  isoformat (mk_datetime 2024 5 1 12 0 0 0 (Some 330)) = "2024-05-01T12:00:00+05:30"%string.
Proof. reflexivity. Qed.

(** A value strictly within one half of an integer rounds to it. *)
Lemma round_half_even_near (q : Q) (k : Z) :
  (inject_Z k - (1 # 2) < q)%Q -> (q < inject_Z k + (1 # 2))%Q ->
  round_half_even q = k.
Proof.
  intros Hlo Hhi. unfold round_half_even.
  pose proof (Qfloor_le q) as Hf1. pose proof (Qlt_floor q) as Hf2.
  rewrite inject_Z_plus in Hf2. change (inject_Z 1) with 1%Q in Hf2.
  assert (Hle : (Qfloor q <= k)%Z).
  { apply Z.lt_succ_r. rewrite Zlt_Qlt. unfold Z.succ. rewrite inject_Z_plus.
    change (inject_Z 1) with 1%Q. qlra. }
  assert (Hge : (k - 1 <= Qfloor q)%Z).
  { apply Z.lt_succ_r. rewrite Zlt_Qlt. unfold Z.succ, Z.sub. rewrite !inject_Z_plus.
    rewrite inject_Z_opp. change (inject_Z 1) with 1%Q. qlra. }
  assert (Hcase : Qfloor q = k \/ Qfloor q = (k - 1)%Z) by lia.
  destruct Hcase as [E | E]; rewrite E in *.
  - case_compare; [qlra | reflexivity | qlra].
  - unfold Z.sub in *. rewrite inject_Z_plus in *.
    rewrite inject_Z_opp in *. change (inject_Z 1) with 1%Q in *.
    case_compare; [qlra | qlra | lia].
Qed.

End FmtFacts.

(** ** The deduplicator *)

Module DedupFacts.
Import Datetime Dedup DedupProps Samples.
Local Open Scope Z_scope.

Lemma format_2f_same_hundredth (x y : Fmt.float) :
  same_hundredth x y -> Fmt.format_2f x = Fmt.format_2f y.
Proof.
  intros [Hsign [k [[Hx1 Hx2] [Hy1 Hy2]]]]. unfold Fmt.format_2f.
  rewrite (FmtFacts.round_half_even_near _ k Hx1 Hx2).
  rewrite (FmtFacts.round_half_even_near _ k Hy1 Hy2).
  rewrite Hsign. reflexivity.
Qed.

Lemma bucket_same_window (t1 t2 : datetime) :
  same_window t1 t2 ->
  replace_minute t1 (minute t1 / BUCKET_MINUTES * BUCKET_MINUTES) =
  replace_minute t2 (minute t2 / BUCKET_MINUTES * BUCKET_MINUTES).
Proof.
  intros (Hy & Hm & Hd & Hh & Ho & Hq). unfold replace_minute, BUCKET_MINUTES.
  rewrite Hy, Hm, Hd, Hh, Ho, Hq. reflexivity.
Qed.

(** C3, as amended. Two records with the same type and severity, whose
    latitudes and whose longitudes have the same sign bit (-0.0 counts as
    negative, 0.0 and an absent coordinate do not) and lie strictly within
    0.005 degrees of the same hundredth of a degree, and whose timestamps
    fall in the same 15-minute window, have the same fingerprint. *)
Theorem fingerprint_stable (now1 now2 : datetime) (a1 a2 : Alert) :
  a_type a1 = a_type a2 ->
  a_severity a1 = a_severity a2 ->
  same_hundredth (default Fmt.zero (a_latitude a1)) (default Fmt.zero (a_latitude a2)) ->
  same_hundredth (default Fmt.zero (a_longitude a1)) (default Fmt.zero (a_longitude a2)) ->
  same_window (default now1 (a_timestamp a1)) (default now2 (a_timestamp a2)) ->
  _create_fingerprint now1 a1 = _create_fingerprint now2 a2.
Proof.
  intros Ht Hs Hlat Hlon Hw. unfold _create_fingerprint, location_string.
  rewrite Ht, Hs.
  rewrite (format_2f_same_hundredth _ _ Hlat), (format_2f_same_hundredth _ _ Hlon).
  rewrite (bucket_same_window _ _ Hw). reflexivity.
Qed.

Lemma fingerprint_stable_witness :
  _create_fingerprint (utcnow noon) (tornado (35004 # 1000) (- (97001 # 1000)) 7) =
  _create_fingerprint (utcnow noon) (tornado (34996 # 1000) (- (96999 # 1000)) 10).
Proof.
  apply fingerprint_stable.
  - reflexivity.
  - reflexivity.
  - split; [reflexivity |].
    exists 3500. vm_compute. repeat split; reflexivity.
  - split; [reflexivity |].
    exists 9700. vm_compute. repeat split; reflexivity.
  - vm_compute. repeat split; reflexivity.
Defined.

(** C3, as stated, fails: 35.004 and 35.006 are 0.002 degrees apart and
    round to 35.00 and 35.01. *)
Lemma fingerprint_jitter_counterexample :
  let a1 := tornado (35004 # 1000) (- 97) 7 in
  let a2 := tornado (35006 # 1000) (- 97) 7 in
  a_type a1 = a_type a2 /\ a_severity a1 = a_severity a2 /\
  jitter (default Fmt.zero (a_latitude a1)) (default Fmt.zero (a_latitude a2)) /\
  jitter (default Fmt.zero (a_longitude a1)) (default Fmt.zero (a_longitude a2)) /\
  same_window (default (utcnow noon) (a_timestamp a1)) (default (utcnow noon) (a_timestamp a2)) /\
  _create_fingerprint (utcnow noon) a1 <> _create_fingerprint (utcnow noon) a2.
Proof.
  cbv zeta. repeat split; try reflexivity.
  vm_compute. intros H. discriminate H.
Qed.

(** The sign bit is printed: latitude -0.0 and latitude 0.0 are the same
    number and give different fingerprints, and so do -0.001 and 0.001,
    which both round to zero. *)
Example fingerprint_signed_zero :
  Fmt.to_Q Fmt.neg_zero = Fmt.to_Q Fmt.zero /\
  location_string (tornado_at Fmt.neg_zero Fmt.zero 7) = "-0.00,0.00"%string /\
  location_string (tornado_at Fmt.zero Fmt.zero 7) = "0.00,0.00"%string /\
  _create_fingerprint (utcnow noon) (tornado_at Fmt.neg_zero Fmt.zero 7) <>
  _create_fingerprint (utcnow noon) (tornado_at Fmt.zero Fmt.zero 7) /\
  _create_fingerprint (utcnow noon) (tornado (- (1 # 1000)) 0 7) <>
  _create_fingerprint (utcnow noon) (tornado (1 # 1000) 0 7).
Proof.
  split; [reflexivity |]. split; [reflexivity |]. split; [reflexivity |].
  split; vm_compute; intros H; discriminate H.
Qed.

(** A record without coordinates is located at "0.00,0.00". *)
Example location_default :
  location_string (mk_alert None None None None None) = "0.00,0.00"%string.
Proof. reflexivity. Qed.

(** Without a shared store, [is_duplicate] is the lookup in the local set. *)
Lemma is_duplicate_in_process (env : Env) (d : AlertDeduplicator) (a : Alert) :
  in_process d ->
  is_duplicate env d a =
  local_check (count_processed d) (to_string (_create_fingerprint (utcnow env) a)).
Proof.
  intros [Hurl Hcl]. unfold is_duplicate, _get_redis. simpl.
  rewrite Hcl, Hurl. reflexivity.
Qed.

Lemma local_check_in_process (d : AlertDeduplicator) (key : string) :
  in_process d -> in_process (snd (local_check d key)).
Proof.
  intros H. unfold local_check. destruct (decide (key ∈ _local_cache d)); exact H.
Qed.

Lemma local_check_grows (d : AlertDeduplicator) (key k : string) :
  k ∈ _local_cache d -> k ∈ _local_cache (snd (local_check d key)).
Proof.
  intros H. unfold local_check. destruct (decide (key ∈ _local_cache d)); simpl.
  - exact H.
  - set_solver.
Qed.

(** No call removes a key from the local set. *)
Lemma run_keeps (calls : list (Env * Alert)) (d : AlertDeduplicator) (k : string) :
  in_process d -> k ∈ _local_cache d ->
  in_process (run calls d) /\ k ∈ _local_cache (run calls d).
Proof.
  revert d. induction calls as [| [env a] calls IH]; intros d Hin Hk.
  - split; assumption.
  - unfold run. simpl. apply IH.
    + rewrite (is_duplicate_in_process _ _ _ Hin). apply local_check_in_process. exact Hin.
    + rewrite (is_duplicate_in_process _ _ _ Hin). apply local_check_grows. exact Hk.
Qed.

(** C1, as amended. For an in-process deduplicator, the first call for a
    record with a fresh fingerprint returns false, and every later call with
    a record of the same fingerprint returns true, whatever calls come in
    between and however much time has passed: the local set has no expiry. *)
Theorem dedup_transition (env1 : Env) (d : AlertDeduplicator) (a : Alert) :
  in_process d ->
  to_string (_create_fingerprint (utcnow env1) a) ∉ _local_cache d ->
  fst (is_duplicate env1 d a) = false /\
  forall (calls : list (Env * Alert)) (env2 : Env) (a' : Alert),
    _create_fingerprint (utcnow env2) a' = _create_fingerprint (utcnow env1) a ->
    fst (is_duplicate env2 (run calls (snd (is_duplicate env1 d a))) a') = true.
Proof.
  intros Hin Hfresh. rewrite (is_duplicate_in_process _ _ _ Hin).
  unfold local_check at 1 2. simpl.
  destruct (decide (to_string (_create_fingerprint (utcnow env1) a) ∈ _local_cache d))
    as [Hmem | _]; [contradiction |].
  split; [reflexivity |]. simpl. intros calls env2 a' Hfp.
  set (d1 := cache_add (count_processed d) (to_string (_create_fingerprint (utcnow env1) a))).
  assert (Hin1 : in_process d1) by exact Hin.
  assert (Hk1 : to_string (_create_fingerprint (utcnow env1) a) ∈ _local_cache d1).
  { unfold d1. simpl. set_solver. }
  destruct (run_keeps calls d1 _ Hin1 Hk1) as [Hin2 Hk2].
  rewrite (is_duplicate_in_process _ _ _ Hin2), Hfp.
  unfold local_check. simpl.
  destruct (decide (to_string (_create_fingerprint (utcnow env1) a)
                      ∈ _local_cache (run calls d1))); [reflexivity | contradiction].
Qed.

Lemma dedup_transition_witness :
  fst (is_duplicate noon (new None) (tornado 35 (- 97) 7)) = false /\
  fst (is_duplicate noon
         (run [] (snd (is_duplicate noon (new None) (tornado 35 (- 97) 7))))
         (tornado 35 (- 97) 10)) = true.
Proof.
  destruct (dedup_transition noon (new None) (tornado 35 (- 97) 7)) as [H1 H2].
  - split; reflexivity.
  - vm_compute. set_solver.
  - split; [exact H1 |]. apply H2. vm_compute. reflexivity.
Defined.

(** Reports of one tornado at 12:07, 12:10 and 12:16: the second falls in
    the bucket of the first, the third opens the next one. *)
Example dedup_buckets :
  let '(r1, d1) := is_duplicate noon (new None) (tornado 35 (- 97) 7) in
  let '(r2, d2) := is_duplicate noon d1 (tornado 35 (- 97) 10) in
  let '(r3, d3) := is_duplicate noon d2 (tornado 35 (- 97) 16) in
  (r1, r2, r3) = (false, true, false) /\ processed d3 = 3%Z /\ duplicates d3 = 1%Z.
Proof. vm_compute. repeat split; reflexivity. Qed.

Example fingerprint_key :
  to_string (_create_fingerprint (utcnow noon) (tornado 35 (- 97) 7))
  = "tornado:5ff1be37:extreme:2024-05-01T12:00:00"%string.
Proof. vm_compute. reflexivity. Qed.

(** C1, as stated, fails on its last part: two days after the first call,
    past the 24 hours of the TTL, the same record is still a duplicate. *)
Lemma dedup_expiry_counterexample :
  let a := tornado 35 (- 97) 7 in
  let '(r1, d1) := is_duplicate noon (new None) a in
  let '(r2, d2) := is_duplicate noon d1 a in
  let '(r3, d3) := is_duplicate two_days_later d2 a in
  in_process (new None) /\ r1 = false /\ r2 = true /\ r3 <> false.
Proof.
  vm_compute. repeat split; discriminate.
Qed.

End DedupFacts.

(** ** The priority scorer *)
Module PrioritizerFacts.
Import Prioritizer PrioritizerProps Samples.
Local Open Scope R_scope.

Lemma clip_bounds (x : R) : 0 <= clip x 0 1 <= 1.
Proof.
  unfold clip, Rmin, Rmax.
  destruct (Rle_dec x 0); destruct (Rle_dec _ 1); rlra.
Qed.

Lemma clip_saturates (x : R) : 1 <= x -> clip x 0 1 = 1.
Proof.
  intros H. unfold clip, Rmin, Rmax.
  destruct (Rle_dec x 0); destruct (Rle_dec _ 1); rlra.
Qed.

(** The score of every alert lies in [0, 1]. *)
Lemma score_bounds (alert : WeatherAlert) :
  0 <= score (calculate_priority alert) <= 1.
Proof. apply clip_bounds. Qed.

(** Below 1 the code assigns the tier of the specification. *)
Lemma find_level_below_one (s : R) :
  0 <= s < 1 -> find_level PRIORITY_LEVELS s MEDIUM = spec_tier s.
Proof.
  intros Hs. unfold find_level, PRIORITY_LEVELS, spec_tier.
  repeat (destruct (Rle_dec _ _); try rlra);
  repeat (destruct (Rlt_dec _ _); try rlra); reflexivity.
Qed.

(** At 1 no bin matches, the loop ends without assigning, and the initial
    value stays. *)
Lemma find_level_one : find_level PRIORITY_LEVELS 1 MEDIUM = MEDIUM.
Proof.
  unfold find_level, PRIORITY_LEVELS.
  repeat (destruct (Rle_dec _ _); try rlra);
  repeat (destruct (Rlt_dec _ _); try rlra); reflexivity.
Qed.

Lemma exp_15 : exp 15 <= 14348907.
Proof.
  pose proof exp_le_3 as H1. pose proof (exp_pos 1) as P1.
  assert (H2 : exp 2 <= 9).
  { replace 2 with (1 + 1) by rlra. rewrite exp_plus. nra. }
  pose proof (exp_pos 2) as P2.
  assert (H4 : exp 4 <= 81).
  { replace 4 with (2 + 2) by rlra. rewrite exp_plus. nra. }
  pose proof (exp_pos 4) as P4.
  assert (H8 : exp 8 <= 6561).
  { replace 8 with (4 + 4) by rlra. rewrite exp_plus. nra. }
  pose proof (exp_pos 8) as P8.
  assert (H3 : exp 3 <= 27).
  { replace 3 with (2 + 1) by rlra. rewrite exp_plus. nra. }
  pose proof (exp_pos 3) as P3.
  assert (H7 : exp 7 <= 2187).
  { replace 7 with (4 + 3) by rlra. rewrite exp_plus. nra. }
  pose proof (exp_pos 7) as P7.
  replace 15 with (8 + 7) by rlra. rewrite exp_plus. nra.
Qed.

Lemma ln_twenty_million : 15 <= ln (1 + IZR 20000000).
Proof.
  rewrite <- (ln_exp 15) at 1.
  destruct (Rle_lt_or_eq_dec _ _ exp_15) as [Hlt | Heq].
  - left. apply ln_increasing; [apply exp_pos | rlra].
  - left. apply ln_increasing; [apply exp_pos | rlra].
Qed.

Lemma hurricane_features :
  _extract_features hurricane =
  [1; log1p (IZR 20000000) / 15; 1; 200 / 200; 500 / 500].
Proof. reflexivity. Qed.

(** C2 at a failing input. The score of [hurricane] is clipped to 1, which
    the specification puts in CRITICAL; the code leaves it MEDIUM. *)
Theorem saturated_score_is_medium :
  score (calculate_priority hurricane) = 1 /\
  priority_level (calculate_priority hurricane) = MEDIUM /\
  spec_tier (score (calculate_priority hurricane)) = CRITICAL.
Proof.
  assert (Hs : score (calculate_priority hurricane) = 1).
  { unfold calculate_priority. cbn [score]. rewrite hurricane_features.
    apply clip_saturates. unfold dot, weights, log1p.
    pose proof ln_twenty_million. rlra. }
  split; [exact Hs |]. split.
  - unfold calculate_priority in *. cbn [score priority_level] in *.
    rewrite Hs. apply find_level_one.
  - rewrite Hs. unfold spec_tier.
    repeat (destruct (Rlt_dec _ _); try rlra). reflexivity.
Qed.

(** Every alert whose score reaches 1 is left MEDIUM. *)
Lemma score_one_is_medium (alert : WeatherAlert) :
  score (calculate_priority alert) = 1 ->
  priority_level (calculate_priority alert) = MEDIUM.
Proof.
  unfold calculate_priority. cbn [score priority_level].
  intros ->. apply find_level_one.
Qed.

(** Below 1 the tier of every alert is the one of the specification. *)
Lemma tier_below_one (alert : WeatherAlert) :
  score (calculate_priority alert) < 1 ->
  priority_level (calculate_priority alert) = spec_tier (score (calculate_priority alert)).
Proof.
  intros H. pose proof (score_bounds alert) as Hb.
  unfold calculate_priority in *. cbn [score priority_level] in *.
  apply find_level_below_one. rlra.
Qed.

Section Sort.
Context {A : Type} (key : A -> R).

Lemma insert_desc_perm (x : A) (l : list A) : Permutation (insert_desc key x l) (x :: l).
Proof.
  induction l as [| y r IH]; simpl.
  - reflexivity.
  - destruct (Rlt_dec (key x) (key y)).
    + rewrite IH. apply perm_swap.
    + reflexivity.
Qed.

Lemma sort_desc_perm (l : list A) : Permutation (sort_desc key l) l.
Proof.
  induction l as [| x l IH]; simpl.
  - reflexivity.
  - rewrite insert_desc_perm. apply perm_skip. exact IH.
Qed.

Lemma insert_desc_hd (y x : A) (l : list A) :
  key x <= key y ->
  HdRel (fun a b => key b <= key a) y l ->
  HdRel (fun a b => key b <= key a) y (insert_desc key x l).
Proof.
  intros Hxy Hl. destruct l as [| z r]; simpl.
  - constructor. exact Hxy.
  - destruct (Rlt_dec (key x) (key z)); constructor.
    + inversion Hl; assumption.
    + exact Hxy.
Qed.

Lemma insert_desc_sorted (x : A) (l : list A) :
  Sorted (fun a b => key b <= key a) l ->
  Sorted (fun a b => key b <= key a) (insert_desc key x l).
Proof.
  induction l as [| y r IH]; intros Hs; simpl.
  - repeat constructor.
  - inversion Hs as [| ? ? Hr Hhd]; subst.
    destruct (Rlt_dec (key x) (key y)) as [Hlt | Hge].
    + constructor; [apply IH; exact Hr |].
      apply insert_desc_hd; [rlra | exact Hhd].
    + constructor; [exact Hs |]. constructor. rlra.
Qed.

Lemma sort_desc_sorted (l : list A) :
  Sorted (fun a b => key b <= key a) (sort_desc key l).
Proof.
  induction l as [| x l IH]; simpl.
  - constructor.
  - apply insert_desc_sorted. exact IH.
Qed.

(** Inserting does not reorder the elements of any one key. *)
Lemma insert_desc_stable (s : R) (x : A) (l : list A) :
  List.filter (fun a => if Req_dec_T (key a) s then true else false) (insert_desc key x l) =
  List.filter (fun a => if Req_dec_T (key a) s then true else false) (x :: l).
Proof.
  induction l as [| y r IH]; [reflexivity |].
  cbn [insert_desc]. destruct (Rlt_dec (key x) (key y)) as [Hlt | Hge]; [| reflexivity].
  cbn [List.filter] in *. rewrite IH.
  destruct (Req_dec_T (key x) s), (Req_dec_T (key y) s); try reflexivity.
  exfalso. rlra.
Qed.

Lemma sort_desc_stable (s : R) (l : list A) :
  List.filter (fun a => if Req_dec_T (key a) s then true else false) (sort_desc key l) =
  List.filter (fun a => if Req_dec_T (key a) s then true else false) l.
Proof.
  induction l as [| x l IH]; [reflexivity |].
  cbn [sort_desc fold_right]. rewrite insert_desc_stable.
  cbn [List.filter]. fold (sort_desc key l). rewrite IH. reflexivity.
Qed.

End Sort.

(** C6. [prioritize_batch] returns the assessments of the input alerts,
    rearranged so that the scores never increase, and the assessments of
    any one score stand in the order of the input. *)
Theorem prioritize_batch_sorted_stable (alerts : list WeatherAlert) :
  Permutation (prioritize_batch alerts) (map calculate_priority alerts) /\
  descending (prioritize_batch alerts) /\
  forall s : R,
    with_score s (prioritize_batch alerts) = with_score s (map calculate_priority alerts).
Proof.
  unfold prioritize_batch, descending, with_score. split; [| split].
  - apply sort_desc_perm.
  - apply sort_desc_sorted.
  - intros s. apply sort_desc_stable.
Qed.

End PrioritizerFacts.

(** ** The delivery manager *)

Module DeliveryFacts.
Import Delivery DeliveryProps Samples.
Local Open Scope Z_scope.

(** The loop appends one result per channel name, in order. *)
Lemma loop_results (m : DeliveryManager) (task : DeliveryTask)
    (names : list string) (acc : list DeliveryResult) :
  fold_left (fun results channel_name => results ++ [attempt m task channel_name]) names acc
  = acc ++ map (attempt m task) names.
Proof.
  revert acc. induction names as [| n names IH]; intros acc; simpl.
  - rewrite app_nil_r. reflexivity.
  - rewrite IH, <- app_assoc. reflexivity.
Qed.

Lemma deliver_results (m : DeliveryManager) (now : Z) (task : DeliveryTask) :
  results (deliver m now task) = map (attempt m task) (channels task).
Proof. unfold deliver. cbn [results]. apply loop_results. Qed.

Lemma count_split (rs : list DeliveryResult) :
  count_success rs + count_failure rs = Z.of_nat (length rs).
Proof.
  induction rs as [| r rs IH]; [reflexivity |].
  cbn [count_success count_failure length]. destruct (success r); lia.
Qed.

Lemma count_failure_nonneg (rs : list DeliveryResult) : 0 <= count_failure rs.
Proof.
  induction rs as [| r rs IH]; [reflexivity |].
  cbn [count_failure]. destruct (success r); lia.
Qed.

(** C4. In every report, successful + failed = total_channels =
    len(task.channels); successful counts the results that succeeded, and
    failed, which is never negative, counts those that did not. *)
Theorem deliver_closure (m : DeliveryManager) (now : Z) (task : DeliveryTask) :
  let report := deliver m now task in
  successful report + failed report = total_channels report /\
  total_channels report = Z.of_nat (length (channels task)) /\
  length (results report) = length (channels task) /\
  successful report = count_success (results report) /\
  failed report = count_failure (results report) /\
  0 <= failed report.
Proof.
  cbv zeta.
  assert (Hlen : length (results (deliver m now task)) = length (channels task)).
  { rewrite deliver_results. apply length_map. }
  assert (Hs : successful (deliver m now task) = count_success (results (deliver m now task)))
    by reflexivity.
  assert (Hf : failed (deliver m now task) = count_failure (results (deliver m now task))).
  { pose proof (count_split (results (deliver m now task))) as H.
    rewrite Hlen in H. change (failed (deliver m now task))
      with (Z.of_nat (length (channels task)) - successful (deliver m now task)).
    rewrite Hs. lia. }
  repeat split; try assumption.
  - change (failed (deliver m now task))
      with (Z.of_nat (length (channels task)) - successful (deliver m now task)).
    change (total_channels (deliver m now task)) with (Z.of_nat (length (channels task))).
    lia.
  - rewrite Hf. apply count_failure_nonneg.
Qed.

Lemma attempt_classified (m : DeliveryManager) (task : DeliveryTask) (n : string) :
  classified m task n (attempt m task n).
Proof.
  unfold classified, attempt, failure.
  destruct (_channels m !! n) as [ch |].
  - repeat split.
    + discriminate.
    + intros ch' [= <-] Hv. rewrite Hv. reflexivity.
    + intros ch' e [= <-] Hv He. rewrite Hv, He. reflexivity.
    + intros ch' res [= <-] Hv Hr. rewrite Hv, Hr. reflexivity.
  - repeat split; first [discriminate | reflexivity].
Qed.

(** C5. [deliver] always returns a report, with one result per entry of
    task.channels at the entry's position. The result depends on that
    entry alone: "Channel not found" for a name that is not registered,
    else "Invalid recipient" when the channel rejects the recipient, else
    the outcome of the channel's send, a raised fault becoming a failure
    that carries its message. *)
Theorem deliver_classifies (m : DeliveryManager) (now : Z) (task : DeliveryTask)
    (i : nat) (channel_name : string) :
  channels task !! i = Some channel_name ->
  length (results (deliver m now task)) = length (channels task) /\
  exists r, results (deliver m now task) !! i = Some r /\
            classified m task channel_name r.
Proof.
  intros Hi. rewrite deliver_results. split; [apply length_map |].
  exists (attempt m task channel_name). split.
  - rewrite list_lookup_fmap, Hi. reflexivity.
  - apply attempt_classified.
Qed.

Lemma deliver_classifies_witness :
  length (results (deliver manager 0 (task_for "not-valid" ["email"; "fax"; "pager"])))
  = length (channels (task_for "not-valid" ["email"; "fax"; "pager"])) /\
  exists r,
    results (deliver manager 0 (task_for "not-valid" ["email"; "fax"; "pager"])) !! 2%nat
    = Some r /\
    classified manager (task_for "not-valid" ["email"; "fax"; "pager"]) "pager" r.
Proof.
  apply (deliver_classifies manager 0 (task_for "not-valid" ["email"; "fax"; "pager"])
           2 "pager").
  reflexivity.
Defined.

(** The three classes side by side, on one task. *)
Example deliver_mixed :
  results (deliver manager 0 (task_for "not-valid" ["email"; "fax"; "pager"])) =
  [ failure "email" "Invalid recipient";
    failure "fax" "Channel not found";
    failure "pager" "connection refused" ].
Proof. vm_compute. reflexivity. Qed.

(** Both registered channels reject the recipient "not-valid". *)
Example deliver_invalid_recipient :
  let report := deliver manager 0 (task_for "not-valid" ["email"; "sms"]) in
  results report =
    [ failure "email" "Invalid recipient"; failure "sms" "Invalid recipient" ] /\
  successful report = 0 /\ failed report = 2.
Proof. vm_compute. repeat split; reflexivity. Qed.

Example deliver_valid_email :
  let report := deliver manager 0 (task_for "ops@example.org" ["email"; "sms"]) in
  results report =
    [ mk_result "email" true (Some "msg-001"%string) None;
      failure "sms" "Invalid recipient" ] /\
  successful report = 1 /\ failed report = 1.
Proof. vm_compute. repeat split; reflexivity. Qed.

End DeliveryFacts.

(** ** The rate limiter *)

Module RateLimitFacts.
Import Num RateLimit RateLimitProps.
Local Open Scope Q_scope.

Lemma qmin_le_l (a b : Q) : qmin a b <= a.
Proof. unfold qmin. destruct (Qlt_le_dec b a); qlra. Qed.

Lemma qmin_le_r (a b : Q) : qmin a b <= b.
Proof. unfold qmin. destruct (Qlt_le_dec b a); qlra. Qed.

Lemma qmin_glb (a b c : Q) : c <= a -> c <= b -> c <= qmin a b.
Proof. unfold qmin. destruct (Qlt_le_dec b a); intros; assumption. Qed.

Lemma refill_within (now : Q) (b : TokenBucket) :
  0 <= rate b -> _last_update b <= now -> within_capacity b ->
  within_capacity (_refill now b).
Proof.
  intros Hr Ht [H0 Hc]. unfold within_capacity, _refill. cbn [_tokens capacity].
  assert (He : 0 <= (now - _last_update b) * rate b).
  { apply Qmult_le_0_compat; [qlra | exact Hr]. }
  split.
  - apply qmin_glb; qlra.
  - apply qmin_le_l.
Qed.

Lemma consume_within (now : Q) (n : Z) (b : TokenBucket) :
  (0 <= n)%Z -> 0 <= rate b -> _last_update b <= now -> within_capacity b ->
  within_capacity (snd (consume now n b)).
Proof.
  intros Hn Hr Ht Hw. pose proof (refill_within now b Hr Ht Hw) as [H0 Hc].
  unfold consume. assert (Hn' : 0 <= inject_Z n) by (rewrite Zle_Qle in Hn; exact Hn).
  destruct (Qle_bool (inject_Z n) (_tokens (_refill now b))) eqn:E; cbn [snd].
  - apply Qle_bool_iff in E. unfold within_capacity. cbn [_tokens capacity].
    change (capacity (_refill now b)) with (capacity b) in *. split; qlra.
  - split; assumption.
Qed.

Lemma apply_op_within (b : TokenBucket) (o : BucketOp) :
  valid_op o -> 0 <= rate b -> _last_update b <= op_time o -> within_capacity b ->
  within_capacity (apply_op b o).
Proof.
  destruct o as [now n | now | now]; cbn [valid_op op_time apply_op]; intros Hv Hr Ht Hw.
  - apply consume_within; assumption.
  - apply refill_within; assumption.
  - apply refill_within; assumption.
Qed.

Lemma apply_op_rate (b : TokenBucket) (o : BucketOp) : rate (apply_op b o) = rate b.
Proof.
  destruct o as [now n | now | now]; cbn [apply_op]; try reflexivity.
  unfold consume. destruct (Qle_bool _ _); reflexivity.
Qed.

Lemma apply_op_last_update (b : TokenBucket) (o : BucketOp) :
  _last_update (apply_op b o) = op_time o.
Proof.
  destruct o as [now n | now | now]; cbn [apply_op]; try reflexivity.
  unfold consume. destruct (Qle_bool _ _); reflexivity.
Qed.

Lemma run_within (ops : list BucketOp) (b : TokenBucket) :
  0 <= rate b -> Forall valid_op ops -> monotone (_last_update b) ops ->
  within_capacity b ->
  within_capacity (fold_left apply_op ops b).
Proof.
  revert b. induction ops as [| o ops IH]; intros b Hr Hv Hm Hw; [exact Hw |].
  cbn [fold_left]. destruct Hm as [Ht Hm]. inversion Hv as [| ? ? Hvo Hvr]; subst.
  apply IH.
  - rewrite apply_op_rate. exact Hr.
  - exact Hvr.
  - rewrite apply_op_last_update. exact Hm.
  - apply apply_op_within; assumption.
Qed.

(** C8. A bucket created with a non-negative rate and capacity, and then
    used at clock readings that never go backwards, holds a token count
    within [0, capacity] after every operation. *)
Theorem tokens_within_capacity (r : Q) (cap : Z) (t0 : Q) (ops : list BucketOp) :
  0 <= r -> (0 <= cap)%Z -> Forall valid_op ops -> monotone t0 ops ->
  within_capacity (fold_left apply_op ops (new_bucket t0 r cap)).
Proof.
  intros Hr Hc Hv Hm. apply run_within; try assumption.
  unfold within_capacity, new_bucket. cbn [_tokens capacity].
  rewrite Zle_Qle in Hc. change (inject_Z 0) with 0 in Hc. split; qlra.
Qed.

Lemma tokens_within_capacity_witness :
  within_capacity
    (fold_left apply_op
       [OpConsume 0 1; OpTokens 0; OpConsume (1 # 2) 1; OpConsume (1 # 2) 1; OpRefill 100]
       (new_bucket 0 1 2)).
Proof.
  apply tokens_within_capacity.
  - discriminate.
  - lia.
  - repeat constructor; discriminate.
  - simpl. repeat split; discriminate.
Defined.

Lemma qmin_eq_r (a b : Q) : b <= a -> qmin a b == b.
Proof. intros H. unfold qmin. destruct (Qlt_le_dec b a); qlra. Qed.

Lemma int_of_Q_inject (q : Q) (m : Z) : q == inject_Z m -> int_of_Q q = m.
Proof.
  unfold Qeq, int_of_Q. cbn [Qnum Qden inject_Z]. intros H.
  rewrite Z.mul_1_r in H. rewrite H. apply Z.quot_mul. discriminate.
Qed.

(** Refilling at the time of the last refill leaves the tokens as they are. *)
Lemma refill_same_time (t0 : Q) (n : Z) (b : TokenBucket) :
  _tokens b == inject_Z n -> _last_update b == t0 -> (n <= capacity b)%Z ->
  _tokens (_refill t0 b) == inject_Z n.
Proof.
  intros Ht Hl Hn. unfold _refill. cbn [_tokens].
  assert (He : (t0 - _last_update b) * rate b == 0).
  { assert (H0 : t0 - _last_update b == 0) by qlra. rewrite H0. apply Qmult_0_l. }
  rewrite Zle_Qle in Hn.
  rewrite qmin_eq_r; rewrite He; qlra.
Qed.

Section OneKey.
Variables (t0 : Q) (key : string) (cap : Z).

Lemma unseen_ready (l : RateLimiter) :
  burst_size (config l) = cap -> unseen key l -> ready t0 key cap cap l.
Proof.
  intros Hb [Hbu Hbl]. unfold ready, _get_bucket. rewrite Hbu, Hb.
  split; [exact Hbl |]. split; [reflexivity |]. split; reflexivity.
Qed.

(** With a token left, the check is allowed and takes one. *)
Lemma check_allowed (n : Z) (l : RateLimiter) :
  ready t0 key cap n l -> (1 <= n <= cap)%Z ->
  allowed (fst (check t0 key l)) = true /\
  remaining (fst (check t0 key l)) = (n - 1)%Z /\
  config (snd (check t0 key l)) = config l /\
  ready t0 key cap (n - 1) (snd (check t0 key l)).
Proof.
  intros (Hbl & Htok & Hlast & Hcap) [Hn1 Hn2].
  unfold check. rewrite Hbl. unfold check_bucket.
  set (b := _get_bucket t0 key l) in *.
  assert (Hr : _tokens (_refill t0 b) == inject_Z n).
  { apply refill_same_time; [exact Htok | exact Hlast | lia]. }
  unfold consume.
  destruct (Qle_bool (inject_Z 1) (_tokens (_refill t0 b))) eqn:E.
  2:{ exfalso. assert (Hle : inject_Z 1 <= _tokens (_refill t0 b)).
      { rewrite Hr. rewrite <- Zle_Qle. exact Hn1. }
      apply Qle_bool_iff in Hle. congruence. }
  cbn [negb]. unfold tokens.
  set (b1 := {| rate := rate (_refill t0 b); capacity := capacity (_refill t0 b);
                _tokens := _tokens (_refill t0 b) - inject_Z 1;
                _last_update := _last_update (_refill t0 b) |}).
  assert (Hr1 : _tokens (_refill t0 b1) == inject_Z (n - 1)).
  { apply refill_same_time.
    - unfold b1. cbn [_tokens]. rewrite Hr. unfold Z.sub.
      rewrite inject_Z_plus, inject_Z_opp. reflexivity.
    - reflexivity.
    - unfold b1. cbn [capacity _refill]. lia. }
  cbn [fst snd allowed remaining config].
  split; [reflexivity |]. split; [apply int_of_Q_inject; exact Hr1 |].
  split; [reflexivity |].
  unfold ready, _get_bucket. cbn [_blocked _buckets]. rewrite lookup_insert_eq.
  split; [exact Hbl |]. split; [exact Hr1 |]. split; [reflexivity | exact Hcap].
Qed.

(** With no token left, the check is denied and blocks the key. *)
Lemma check_denied (l : RateLimiter) :
  ready t0 key cap 0 l -> (0 <= cap)%Z ->
  allowed (fst (check t0 key l)) = false /\
  retry_after (fst (check t0 key l)) = Some 60%Z /\
  _blocked (snd (check t0 key l)) !! key
    = Some (t0 + inject_Z (block_duration_seconds (config l))).
Proof.
  intros (Hbl & Htok & Hlast & Hcap) Hc.
  unfold check. rewrite Hbl. unfold check_bucket.
  set (b := _get_bucket t0 key l) in *.
  assert (Hr : _tokens (_refill t0 b) == inject_Z 0).
  { apply refill_same_time; [exact Htok | exact Hlast | lia]. }
  unfold consume.
  destruct (Qle_bool (inject_Z 1) (_tokens (_refill t0 b))) eqn:E.
  { exfalso. apply Qle_bool_iff in E. rewrite Hr in E.
    rewrite <- Zle_Qle in E. lia. }
  cbn [negb]. unfold tokens. cbn [fst snd allowed retry_after _blocked negb].
  rewrite lookup_insert_eq. split; [reflexivity |]. split; reflexivity.
Qed.

(** As many checks as there are tokens are all allowed. *)
Lemma checks_burst (k : nat) (n : Z) (l : RateLimiter) :
  ready t0 key cap n l -> (Z.of_nat k <= n <= cap)%Z ->
  map allowed (fst (checks (repeat t0 k) key l)) = repeat true k /\
  config (snd (checks (repeat t0 k) key l)) = config l /\
  ready t0 key cap (n - Z.of_nat k) (snd (checks (repeat t0 k) key l)).
Proof.
  revert n l. induction k as [| k IH]; intros n l Hready Hn.
  - cbn [repeat checks map fst snd]. rewrite Z.sub_0_r.
    split; [reflexivity |]. split; [reflexivity | exact Hready].
  - cbn [repeat checks].
    destruct (check_allowed n l Hready ltac:(lia)) as (Ha & _ & Hc & Hready').
    destruct (check t0 key l) as [r l1]. cbn [fst snd] in *.
    destruct (IH (n - 1)%Z l1 Hready' ltac:(lia)) as (Hall & Hc' & Hready'').
    destruct (checks (repeat t0 k) key l1) as [rs l2]. cbn [fst snd map] in *.
    rewrite Ha, Hall. split; [reflexivity |]. split; [congruence |].
    replace (n - Z.of_nat (S k))%Z with (n - 1 - Z.of_nat k)%Z by lia. exact Hready''.
Qed.

(** A check of a blocked key reports the block and changes nothing. *)
Lemma check_blocked (t : Q) (l : RateLimiter) (block_until : Q) :
  _blocked l !! key = Some block_until -> t < block_until ->
  check t key l =
  ({| allowed := false; remaining := 0; reset_at := block_until;
      retry_after := Some (int_of_Q (block_until - t)) |}, l).
Proof.
  intros Hb Hlt. unfold check. rewrite Hb.
  destruct (Qlt_le_dec t block_until); [reflexivity | qlra].
Qed.

(** While the key is blocked every check is denied, whatever its bucket
    holds, and nothing changes. *)
Lemma blocked_denied (times : list Q) (l : RateLimiter) (block_until : Q) :
  _blocked l !! key = Some block_until ->
  Forall (fun t => t < block_until) times ->
  all_denied (fst (checks times key l)) /\ snd (checks times key l) = l.
Proof.
  intros Hb Ht. induction Ht as [| t times Hlt _ IH].
  - split; [constructor | reflexivity].
  - cbn [checks]. rewrite (check_blocked t l block_until Hb Hlt).
    destruct IH as [IH1 IH2].
    destruct (checks times key l) as [rs l']. cbn [fst snd] in *.
    split; [constructor; [reflexivity | exact IH1] | exact IH2].
Qed.

(** Once the clock reaches [block_until] the block is dropped and the
    bucket decides. *)
Lemma block_expires (t : Q) (l : RateLimiter) (block_until : Q) :
  _blocked l !! key = Some block_until -> block_until <= t ->
  check t key l = check_bucket t key l (delete key (_blocked l)).
Proof.
  intros Hb Ht. unfold check. rewrite Hb.
  destruct (Qlt_le_dec t block_until); [qlra | reflexivity].
Qed.

End OneKey.

(** What a check does to the bucket of its key: it consumes one token and
    then reads the count. *)
Lemma check_bucket_ops (now : Q) (key : string) (l : RateLimiter) (blocked : gmap string Q) :
  _buckets (snd (check_bucket now key l blocked)) !! key =
  Some (fold_left apply_op [OpConsume now 1; OpTokens now] (_get_bucket now key l)).
Proof.
  unfold check_bucket. cbn [fold_left apply_op].
  destruct (consume now 1 (_get_bucket now key l)) as [a b]. cbn [snd tokens _buckets].
  apply lookup_insert_eq.
Qed.

(** C7. With requests_per_minute = 60 and burst_size = 10, ten checks of an
    unseen key at one instant are all allowed and the eleventh is denied
    and blocks the key until block_duration_seconds later. While a key is
    blocked every check of it is denied and leaves the limiter as it is,
    whatever the bucket holds; from block_until on the block is dropped
    and the bucket decides again. *)
Theorem burst_then_block (l : RateLimiter) (key : string) (t0 : Q) :
  requests_per_minute (config l) = 60%Z ->
  burst_size (config l) = 10%Z ->
  unseen key l ->
  let burst := checks (repeat t0 10) key l in
  let eleventh := check t0 key (snd burst) in
  let block_until := t0 + inject_Z (block_duration_seconds (config l)) in
  map allowed (fst burst) = repeat true 10 /\
  allowed (fst eleventh) = false /\
  _blocked (snd eleventh) !! key = Some block_until /\
  (forall (l' : RateLimiter) (b : Q) (times : list Q),
     _blocked l' !! key = Some b -> Forall (fun t => t < b) times ->
     all_denied (fst (checks times key l')) /\ snd (checks times key l') = l') /\
  (forall (l' : RateLimiter) (b t : Q),
     _blocked l' !! key = Some b -> b <= t ->
     check t key l' = check_bucket t key l' (delete key (_blocked l'))).
Proof.
  intros _ Hburst Hunseen. cbv zeta.
  pose proof (unseen_ready t0 key 10 l Hburst Hunseen) as Hready.
  destruct (checks_burst t0 key 10 10 10 l Hready ltac:(lia)) as (Hall & Hc & Hready').
  destruct (check_denied t0 key 10 _ Hready' ltac:(lia)) as (Hden & _ & Hblock).
  split; [exact Hall |]. split; [exact Hden |]. split; [rewrite Hblock, Hc; reflexivity |].
  split.
  - intros l' b times. apply blocked_denied.
  - intros l' b t. apply block_expires.
Qed.

Lemma burst_then_block_witness :
  map allowed (fst (checks (repeat 0 10) "10.0.0.7" (new default_config))) = repeat true 10 /\
  allowed (fst (check 0 "10.0.0.7"
                  (snd (checks (repeat 0 10) "10.0.0.7" (new default_config))))) = false.
Proof.
  destruct (burst_then_block (new default_config) "10.0.0.7" 0) as (H1 & H2 & _).
  - reflexivity.
  - reflexivity.
  - split; reflexivity.
  - split; [exact H1 | exact H2].
Defined.

(** Eleven checks at time 0, one a second before the block ends and one
    when it ends, after 300 seconds: the last is allowed again. *)
Example block_lifecycle :
  map allowed (fst (checks (repeat 0 11 ++ [299; 300]) "10.0.0.7" (new default_config)))
  = repeat true 10 ++ [false; false; true].
Proof. vm_compute. reflexivity. Qed.

Example block_remaining :
  map remaining (fst (checks (repeat 0 11) "10.0.0.7" (new default_config)))
  = [9; 8; 7; 6; 5; 4; 3; 2; 1; 0; 0]%Z.
Proof. vm_compute. reflexivity. Qed.

End RateLimitFacts.

(** ** The grid index *)

Module GeoFacts.
Import Num Geo GeoProps.
Local Open Scope Z_scope.

Lemma range_length (lo hi : Z) : length (range lo hi) = Z.to_nat (hi - lo).
Proof. unfold range. rewrite length_map, length_seq. reflexivity. Qed.

Lemma range_In (lo hi x : Z) : In x (range lo hi) <-> lo <= x < hi.
Proof.
  unfold range. rewrite in_map_iff. split.
  - intros (i & <- & Hi). apply in_seq in Hi. lia.
  - intros Hx. exists (Z.to_nat (x - lo)). split; [lia |]. apply in_seq. lia.
Qed.

Lemma range_NoDup (lo hi : Z) : List.NoDup (range lo hi).
Proof.
  unfold range. apply Finite.Injective_map_NoDup; [| apply seq_NoDup].
  intros i j H. lia.
Qed.

Lemma neighborhood_In (center c : Z * Z) (r : Z) :
  In c (neighborhood center r) <-> chebyshev c center <= r.
Proof.
  unfold neighborhood, chebyshev. rewrite in_flat_map. destruct c as [x y]. cbn [fst snd].
  split.
  - intros (dx & Hdx & Hc). apply in_map_iff in Hc. destruct Hc as (dy & [= <- <-] & Hdy).
    apply range_In in Hdx, Hdy. lia.
  - intros H. exists (x - fst center). split; [apply range_In; lia |].
    apply in_map_iff. exists (y - snd center). split; [f_equal; lia | apply range_In; lia].
Qed.

Lemma flat_map_length_const {A B : Type} (f : A -> list B) (n : nat) (l : list A) :
  (forall x, length (f x) = n) -> length (flat_map f l) = (length l * n)%nat.
Proof.
  intros H. induction l as [| x l IH]; [reflexivity |].
  cbn [flat_map length]. rewrite length_app, H, IH. lia.
Qed.

Lemma neighborhood_length (center : Z * Z) (r : Z) :
  0 <= r -> Z.of_nat (length (neighborhood center r)) = (2 * r + 1) * (2 * r + 1).
Proof.
  intros Hr. unfold neighborhood.
  rewrite (flat_map_length_const _ (Z.to_nat (2 * r + 1))).
  - rewrite range_length. replace (r + 1 - - r) with (2 * r + 1) by lia. lia.
  - intros dx. rewrite length_map, range_length. f_equal. lia.
Qed.

Lemma grid_NoDup (cx cy : Z) (xs ys : list Z) :
  List.NoDup xs -> List.NoDup ys ->
  List.NoDup (flat_map (fun dx => map (fun dy => (cx + dx, cy + dy)) ys) xs).
Proof.
  intros Hxs Hys. induction Hxs as [| dx l Hnotin Hnd IH]; [constructor |].
  cbn [flat_map]. apply List.NoDup_app.
  - apply Finite.Injective_map_NoDup; [| exact Hys].
    intros a b [= H]. lia.
  - exact IH.
  - intros c Hc1 Hc2. apply in_map_iff in Hc1. destruct Hc1 as (dy & <- & _).
    apply in_flat_map in Hc2. destruct Hc2 as (dx' & Hdx' & Hc2).
    apply in_map_iff in Hc2. destruct Hc2 as (dy' & [= H1 H2] & _).
    assert (dx' = dx) by lia. subst. contradiction.
Qed.

Lemma neighborhood_NoDup (center : Z * Z) (r : Z) : List.NoDup (neighborhood center r).
Proof. apply grid_NoDup; apply range_NoDup. Qed.

(** Truncation toward zero is the floor of a non-negative value and the
    ceiling of a non-positive one. *)
Lemma int_of_Q_nonneg (q : Q) : (0 <= q)%Q -> int_of_Q q = Qfloor q.
Proof.
  destruct q as [n d]. unfold Qle, int_of_Q, Qfloor. cbn [Qnum Qden].
  intros H. apply Z.quot_div_nonneg; lia.
Qed.

Lemma int_of_Q_nonpos (q : Q) : (q <= 0)%Q -> int_of_Q q = Qceiling q.
Proof.
  destruct q as [n d]. unfold Qle, int_of_Q, Qceiling, Qfloor, Qopp. cbn [Qnum Qden].
  intros H. rewrite <- (Z.opp_involutive n) at 1.
  rewrite Z.quot_opp_l by discriminate. f_equal. apply Z.quot_div_nonneg; lia.
Qed.

Section Index.
Context {Item : Type}.
Implicit Types (g : GeoIndex Item) (item : Item).

Lemma get_cell_trunc g (lat lon : Q) :
  ~ (resolution g == 0)%Q ->
  _get_cell g lat lon = Some (trunc_cell (resolution g) lat lon).
Proof.
  intros Hres. unfold _get_cell.
  destruct (Qeq_bool (resolution g) 0) eqn:E; [| reflexivity].
  apply Qeq_bool_eq in E. contradiction.
Qed.

(** The two loops visit the neighborhood in order. *)
Lemma scan_neighborhood g (center : Z * Z) (xs ys : list Z) :
  flat_map (fun dx =>
    flat_map (fun dy => default [] (_grid g !! (fst center + dx, snd center + dy))) ys) xs
  = flat_map (cell_items g)
      (flat_map (fun dx => map (fun dy => (fst center + dx, snd center + dy)) ys) xs).
Proof.
  induction xs as [| dx xs IH]; [reflexivity |].
  cbn [flat_map]. rewrite flat_map_app, IH. f_equal.
  clear IH. induction ys as [| dy ys IH]; [reflexivity |].
  cbn [flat_map map]. rewrite IH. reflexivity.
Qed.

Lemma query_radius_neighborhood g (lat lon : Q) (r : Z) :
  ~ (resolution g == 0)%Q ->
  query_radius g lat lon r =
  Some (flat_map (cell_items g) (neighborhood (trunc_cell (resolution g) lat lon) r)).
Proof.
  intros Hres. unfold query_radius. rewrite (get_cell_trunc g lat lon Hres).
  f_equal. apply scan_neighborhood.
Qed.

(** C9, as amended. With a resolution that is not zero, a coordinate pair
    is assigned to the cell of its two quotients truncated toward zero,
    which is the floor for a non-negative quotient and the ceiling for a
    non-positive one. For a radius r >= 0, [query_radius] returns the
    contents of the (2r+1) x (2r+1) cells at Chebyshev distance at most r
    from the cell of the query point, each cell once, concatenated in scan
    order and not filtered. *)
Theorem query_scans_neighborhood g (lat lon : Q) (r : Z) :
  ~ (resolution g == 0)%Q -> 0 <= r ->
  let center := trunc_cell (resolution g) lat lon in
  _get_cell g lat lon = Some center /\
  ((0 <= lat / resolution g)%Q -> fst center = Qfloor (lat / resolution g)) /\
  ((lat / resolution g <= 0)%Q -> fst center = Qceiling (lat / resolution g)) /\
  ((0 <= lon / resolution g)%Q -> snd center = Qfloor (lon / resolution g)) /\
  ((lon / resolution g <= 0)%Q -> snd center = Qceiling (lon / resolution g)) /\
  query_radius g lat lon r = Some (flat_map (cell_items g) (neighborhood center r)) /\
  Z.of_nat (length (neighborhood center r)) = (2 * r + 1) * (2 * r + 1) /\
  List.NoDup (neighborhood center r) /\
  (forall c, In c (neighborhood center r) <-> chebyshev c center <= r).
Proof.
  intros Hres Hr. cbv zeta.
  split; [apply get_cell_trunc; exact Hres |].
  split; [apply int_of_Q_nonneg |]. split; [apply int_of_Q_nonpos |].
  split; [apply int_of_Q_nonneg |]. split; [apply int_of_Q_nonpos |].
  split; [apply query_radius_neighborhood; exact Hres |].
  split; [apply neighborhood_length; exact Hr |].
  split; [apply neighborhood_NoDup |].
  intros c. apply neighborhood_In.
Qed.

(** C10. With a resolution that is not zero, an item inserted at a
    coordinate pair is among the items returned by a query at the same
    pair, for every radius r >= 0. *)
Theorem insert_then_query g item (lat lon : Q) (r : Z) :
  ~ (resolution g == 0)%Q -> 0 <= r ->
  exists g' items,
    insert g item lat lon = Some g' /\
    query_radius g' lat lon r = Some items /\
    In item items.
Proof.
  intros Hres Hr.
  set (cell := trunc_cell (resolution g) lat lon).
  set (g' := {| resolution := resolution g;
                _grid := <[cell := default [] (_grid g !! cell) ++ [item]]> (_grid g) |}).
  exists g', (flat_map (cell_items g') (neighborhood cell r)).
  split; [| split].
  - unfold insert. rewrite (get_cell_trunc g lat lon Hres). reflexivity.
  - apply (query_radius_neighborhood g' lat lon r Hres).
  - apply in_flat_map. exists cell. split.
    + apply neighborhood_In. unfold chebyshev. lia.
    + unfold cell_items, g'. cbn [_grid]. rewrite lookup_insert_eq. cbn [default].
      apply in_or_app. right. left. reflexivity.
Qed.

End Index.

Lemma query_scans_neighborhood_witness :
  _get_cell Samples.sirens 35 (- (9705 # 100)) = Some (350, -970) /\
  query_radius Samples.sirens 35 (- (9705 # 100)) 1 =
  Some (flat_map (cell_items Samples.sirens) (neighborhood (350, -970) 1)).
Proof.
  destruct (query_scans_neighborhood Samples.sirens 35 (- (9705 # 100)) 1)
    as (H1 & _ & _ & _ & _ & H2 & _).
  - intros H. discriminate H.
  - lia.
  - split; [exact H1 | exact H2].
Defined.

(** C9, as stated, fails for a negative quotient that is not an integer:
    longitude -97.05 at resolution 0.1 is put in column -970, and the floor
    of -970.5 is -971. *)
Lemma cell_floor_counterexample :
  _get_cell (@default_index string) 35 (- (9705 # 100)) = Some (350, -970) /\
  floor_cell (resolution (@default_index string)) 35 (- (9705 # 100)) = (350, -971) /\
  _get_cell (@default_index string) 35 (- (9705 # 100))
  <> Some (floor_cell (resolution (@default_index string)) 35 (- (9705 # 100))).
Proof.
  split; [reflexivity |]. split; [reflexivity |]. vm_compute. intros H. discriminate H.
Qed.

Lemma insert_then_query_witness :
  exists g' items,
    insert (@default_index string) "siren-7" (- (5 # 100)) (- (9705 # 100)) = Some g' /\
    query_radius g' (- (5 # 100)) (- (9705 # 100)) 0 = Some items /\
    In "siren-7"%string items.
Proof.
  apply insert_then_query.
  - intros H. discriminate H.
  - lia.
Defined.

(** A query returns whole cells: "siren-3" lies 0.14 degrees west of the
    query point, more than a cell width, and still comes back with radius 1,
    its cell being adjacent. The rows are scanned one after the other. *)
Example query_sirens :
  query_radius Samples.sirens 35 (- (9705 # 100)) 1 =
  Some ["siren-3"; "siren-1"; "siren-2"]%string.
Proof. vm_compute. reflexivity. Qed.

Example query_sirens_radius_0 :
  query_radius Samples.sirens 35 (- (9705 # 100)) 0 = Some ["siren-1"; "siren-2"]%string.
Proof. vm_compute. reflexivity. Qed.

(** The cells on either side of zero are merged by the truncation. *)
Example cell_around_zero :
  _get_cell (@default_index string) (5 # 100) (5 # 100) = Some (0, 0) /\
  _get_cell (@default_index string) (- (5 # 100)) (- (5 # 100)) = Some (0, 0).
Proof. split; reflexivity. Qed.

End GeoFacts.

(** ** The deduplicator: shared store, counters and cache *)

Module DedupMore.
Import Datetime Dedup DedupProps Samples.
Local Open Scope Z_scope.

(** With a connected store and no fault, the store alone decides. *)
Lemma is_duplicate_connected (env : Env) (d : AlertDeduplicator)
    (store : gmap string Z) (a : Alert) :
  _redis_client d = Some store -> redis_fault env = None ->
  is_duplicate env d a =
  let key := "alert:fp:" +:+ to_string (_create_fingerprint (utcnow env) a) in
  if redis_exists store (redis_now env) key
  then (true, count_duplicate (count_processed d))
  else (false, set_client (count_processed d)
                 (Some (redis_setex store (redis_now env) key (CACHE_TTL_HOURS * 3600)))).
Proof.
  intros Hc Hf. unfold is_duplicate, _get_redis, is_fault. cbn [_redis_client count_processed].
  rewrite Hc, Hf. reflexivity.
Qed.



(** Every call is counted, and every call that answers true is counted as
    a duplicate, whatever the store does. *)
Lemma is_duplicate_counts (env : Env) (d : AlertDeduplicator) (a : Alert) :
  processed (snd (is_duplicate env d a)) = processed d + 1 /\
  duplicates (snd (is_duplicate env d a)) =
    duplicates d + (if fst (is_duplicate env d a) then 1 else 0).
Proof.
  unfold is_duplicate, _get_redis, local_check. cbn [_redis_client redis_url count_processed].
  destruct (_redis_client d) as [store |].
  - destruct (is_fault env OpExists).
    + case_decide; cbn; lia.
    + destruct (redis_exists _ _ _); [cbn; lia |].
      destruct (is_fault env OpSetex); [| cbn; lia].
      case_decide; cbn; lia.
  - destruct (truthy (redis_url d)).
    + destruct (redis_connect env) as [store |].
      * destruct (is_fault env OpExists).
        -- case_decide; cbn; lia.
        -- destruct (redis_exists _ _ _); [cbn; lia |].
           destruct (is_fault env OpSetex); [| cbn; lia].
           case_decide; cbn; lia.
      * case_decide; cbn; lia.
    + case_decide; cbn; lia.
Qed.

(** [sum(1 for r in results if r)] *)
Lemma run_results_counts (calls : list (Env * Alert)) (d : AlertDeduplicator) :
  processed (snd (run_results calls d)) = processed d + Z.of_nat (length calls) /\
  duplicates (snd (run_results calls d)) =
    duplicates d + Z.of_nat (length (List.filter (fun r => r) (fst (run_results calls d)))).
Proof.
  revert d. induction calls as [| [env a] calls IH]; intros d.
  - cbn. lia.
  - cbn [run_results fst snd]. pose proof (is_duplicate_counts env d a) as [Hp Hd].
    destruct (is_duplicate env d a) as [r d1]. cbn [fst snd] in *.
    specialize (IH d1). destruct (run_results calls d1) as [rs d2]. cbn [fst snd] in *.
    destruct IH as [IHp IHd]. rewrite IHp, IHd, Hp, Hd.
    destruct r; cbn [List.filter length]; lia.
Qed.

(** X2. Over any run of calls, with or without a shared store and whatever
    faults occur, [processed] grows by the number of calls and [duplicates]
    by the number of calls that answered true. *)
Theorem stats_count_calls (calls : list (Env * Alert)) (d : AlertDeduplicator) :
  processed (snd (run_results calls d)) = processed d + Z.of_nat (length calls) /\
  duplicates (snd (run_results calls d)) =
    duplicates d + Z.of_nat (length (List.filter (fun r => r) (fst (run_results calls d)))).
Proof. apply run_results_counts. Qed.

Lemma filter_length_le {A : Type} (f : A -> bool) (l : list A) :
  (length (List.filter f l) <= length l)%nat.
Proof.
  induction l as [| x l IH]; [reflexivity |].
  cbn [List.filter]. destruct (f x); cbn [length]; lia.
Qed.

Lemma run_results_length (calls : list (Env * Alert)) (d : AlertDeduplicator) :
  length (fst (run_results calls d)) = length calls.
Proof.
  revert d. induction calls as [| [env a] calls IH]; intros d; [reflexivity |].
  cbn [run_results fst snd]. destruct (is_duplicate env d a) as [r d1].
  specialize (IH d1). destruct (run_results calls d1) as [rs d2].
  cbn [fst] in *. simpl. f_equal. exact IH.
Qed.

(** X3. Starting from a new deduplicator, after any run of calls the
    duplicate rate lies between 0 and 1, and it is 0 when no call was made. *)
Theorem duplicate_rate_bounds (url : option string) (calls : list (Env * Alert)) :
  (0 <= duplicate_rate (snd (run_results calls (new url))) <= 1)%Q /\
  duplicate_rate (new url) = 0%Q.
Proof.
  split; [| reflexivity].
  pose proof (run_results_counts calls (new url)) as [Hp Hd].
  pose proof (filter_length_le (fun r => r) (fst (run_results calls (new url)))) as Hle.
  rewrite run_results_length in Hle.
  set (d := snd (run_results calls (new url))) in *.
  cbn [new processed duplicates] in Hp, Hd.
  unfold duplicate_rate. destruct (processed d =? 0) eqn:E; [split; discriminate |].
  apply Z.eqb_neq in E.
  assert (Hpos : (0 < inject_Z (processed d))%Q).
  { rewrite <- (Zlt_Qlt 0). lia. }
  split.
  - apply Qle_shift_div_l; [exact Hpos |]. rewrite Qmult_0_l.
    rewrite <- (Zle_Qle 0). lia.
  - apply Qle_shift_div_r; [exact Hpos |]. rewrite Qmult_1_l.
    rewrite <- Zle_Qle. lia.
Qed.

(** In process, a call either finds its key or adds it. *)
Lemma local_check_size (d : AlertDeduplicator) (key : string) :
  Z.of_nat (size (_local_cache (snd (local_check d key)))) - processed (snd (local_check d key))
    + duplicates (snd (local_check d key))
  = Z.of_nat (size (_local_cache d)) - processed d + duplicates d + 1.
Proof.
  unfold local_check. case_decide as Hin; cbn [snd count_duplicate cache_add
    _local_cache processed duplicates].
  - lia.
  - rewrite size_union by set_solver. rewrite size_singleton. lia.
Qed.

Lemma run_cons (env : Env) (a : Alert) (calls : list (Env * Alert)) (d : AlertDeduplicator) :
  run ((env, a) :: calls) d = run calls (snd (is_duplicate env d a)).
Proof. reflexivity. Qed.

Lemma run_in_process (calls : list (Env * Alert)) (d : AlertDeduplicator) :
  in_process d ->
  in_process (run calls d) /\
  Z.of_nat (size (_local_cache (run calls d))) - processed (run calls d)
    + duplicates (run calls d)
  = Z.of_nat (size (_local_cache d)) - processed d + duplicates d.
Proof.
  revert d. induction calls as [| [env a] calls IH]; intros d Hin.
  - split; [exact Hin | reflexivity].
  - rewrite run_cons.
    rewrite (DedupFacts.is_duplicate_in_process env d a Hin).
    set (key := to_string (_create_fingerprint (utcnow env) a)).
    assert (Hin1 : in_process (snd (local_check (count_processed d) key))).
    { apply DedupFacts.local_check_in_process. exact Hin. }
    destruct (IH _ Hin1) as [Hin2 Hsz]. split; [exact Hin2 |].
    rewrite Hsz. pose proof (local_check_size (count_processed d) key) as H.
    cbn [count_processed processed duplicates _local_cache] in H. lia.
Qed.

(** X4. For a deduplicator created without a shared store, after any run of
    calls the size of the in-process set reported by [get_stats] is the
    number of calls that were not duplicates: processed - duplicates. *)
Theorem cache_size_counts_new_records (calls : list (Env * Alert)) :
  cache_size (get_stats (run calls (new None))) =
  stats_processed (get_stats (run calls (new None)))
  - stats_duplicates (get_stats (run calls (new None))).
Proof.
  destruct (run_in_process calls (new None)) as [_ H]; [split; reflexivity |].
  cbn [get_stats cache_size stats_processed stats_duplicates].
  cbn [new _local_cache processed duplicates] in H.
  rewrite size_empty in H. lia.
Qed.

(** X5. [clear_cache] empties the in-process set only. Without a shared
    store every record is new again after it; with a connected store and no
    fault it changes no answer. The counters are kept. *)
Theorem clear_cache_scope (env : Env) (d : AlertDeduplicator) (a : Alert) :
  (in_process d -> fst (is_duplicate env (clear_cache d) a) = false) /\
  (forall store, _redis_client d = Some store -> redis_fault env = None ->
     fst (is_duplicate env (clear_cache d) a) = fst (is_duplicate env d a)) /\
  processed (clear_cache d) = processed d /\
  duplicates (clear_cache d) = duplicates d.
Proof.
  split; [| split; [| split; reflexivity]].
  - intros Hin. rewrite DedupFacts.is_duplicate_in_process by exact Hin.
    unfold local_check. cbn [count_processed clear_cache _local_cache].
    case_decide as H; [set_solver | reflexivity].
  - intros store Hc Hf.
    rewrite (is_duplicate_connected env (clear_cache d) store a Hc Hf).
    rewrite (is_duplicate_connected env d store a Hc Hf).
    cbv zeta. destruct (redis_exists _ _ _); reflexivity.
Qed.

(** A call during which a store operation fails falls back on the
    in-process set and leaves the store as it is. *)
Lemma is_duplicate_fault (env : Env) (d : AlertDeduplicator)
    (store : gmap string Z) (a : Alert) (op : RedisOp) :
  _redis_client d = Some store -> redis_fault env = Some op ->
  redis_exists store (redis_now env)
    ("alert:fp:" +:+ to_string (_create_fingerprint (utcnow env) a)) = false ->
  is_duplicate env d a =
  local_check (count_processed d) (to_string (_create_fingerprint (utcnow env) a)).
Proof.
  intros Hc Hf Hex. unfold is_duplicate, _get_redis, is_fault.
  cbn [_redis_client count_processed]. rewrite Hc, Hf, Hex.
  destruct op; reflexivity.
Qed.

(** X6. A record first seen while a store operation fails is recorded in the
    in-process set only, and the store is left as it is. When the store
    answers again, the in-process set is not consulted: the same record is
    reported as new a second time. *)
Theorem outage_record_passes_twice (env1 : Env) (d : AlertDeduplicator)
    (store : gmap string Z) (a : Alert) (op : RedisOp) :
  _redis_client d = Some store ->
  redis_fault env1 = Some op ->
  to_string (_create_fingerprint (utcnow env1) a) ∉ _local_cache d ->
  redis_exists store (redis_now env1)
    ("alert:fp:" +:+ to_string (_create_fingerprint (utcnow env1) a)) = false ->
  fst (is_duplicate env1 d a) = false /\
  _redis_client (snd (is_duplicate env1 d a)) = Some store /\
  to_string (_create_fingerprint (utcnow env1) a)
    ∈ _local_cache (snd (is_duplicate env1 d a)) /\
  forall (env2 : Env) (a' : Alert),
    redis_fault env2 = None ->
    _create_fingerprint (utcnow env2) a' = _create_fingerprint (utcnow env1) a ->
    redis_exists store (redis_now env2)
      ("alert:fp:" +:+ to_string (_create_fingerprint (utcnow env1) a)) = false ->
    fst (is_duplicate env2 (snd (is_duplicate env1 d a)) a') = false.
Proof.
  intros Hc Hf Hfresh Hex.
  rewrite (is_duplicate_fault env1 d store a op Hc Hf Hex).
  unfold local_check. cbn [count_processed _local_cache].
  case_decide as Hin; [contradiction |]. cbn [fst snd cache_add _redis_client _local_cache].
  split; [reflexivity |]. split; [exact Hc |]. split; [set_solver |].
  intros env2 a' Hf2 Hfp Hex2.
  set (d1 := cache_add (count_processed d) (to_string (_create_fingerprint (utcnow env1) a))).
  rewrite (is_duplicate_connected env2 d1 store a' Hc Hf2). cbv zeta.
  rewrite Hfp, Hex2. reflexivity.
Qed.

Lemma outage_record_passes_twice_witness :
  fst (is_duplicate (MoreSamples.store_env 0 (Some OpExists)) MoreSamples.connected
         (tornado 35 (- 97) 7)) = false /\
  fst (is_duplicate (MoreSamples.store_env 5 None)
         (snd (is_duplicate (MoreSamples.store_env 0 (Some OpExists)) MoreSamples.connected
                 (tornado 35 (- 97) 7)))
         (tornado 35 (- 97) 10)) = false.
Proof.
  destruct (outage_record_passes_twice (MoreSamples.store_env 0 (Some OpExists))
              MoreSamples.connected ∅ (tornado 35 (- 97) 7) OpExists) as (H1 & _ & _ & H2).
  - reflexivity.
  - reflexivity.
  - vm_compute. set_solver.
  - reflexivity.
  - split; [exact H1 |]. apply H2.
    + reflexivity.
    + vm_compute. reflexivity.
    + reflexivity.
Defined.

Lemma append_inv_head (p x y : string) : p +:+ x = p +:+ y -> x = y.
Proof.
  induction p as [| c p IH]; cbn [String.append]; intros H; [exact H |].
  injection H as H. apply IH. exact H.
Qed.

(** The quarter-hour buckets of one hour are printed differently. *)
Lemma bucket_minute_distinct (t1 t2 : datetime) :
  year t1 = year t2 -> month t1 = month t2 -> day t1 = day t2 -> hour t1 = hour t2 ->
  0 <= minute t1 < 60 -> 0 <= minute t2 < 60 ->
  minute t1 / 15 <> minute t2 / 15 ->
  isoformat (replace_minute t1 (minute t1 / BUCKET_MINUTES * BUCKET_MINUTES)) <>
  isoformat (replace_minute t2 (minute t2 / BUCKET_MINUTES * BUCKET_MINUTES)).
Proof.
  intros Hy Hmo Hd Hh Hm1 Hm2 Hq H. unfold isoformat, replace_minute, BUCKET_MINUTES in H.
  cbn [year month day hour minute second microsecond utcoffset] in H.
  rewrite Hy, Hmo, Hd, Hh in H.
  do 8 (apply append_inv_head in H).
  assert (Hb1 : 0 <= minute t1 / 15 < 4).
  { split; [apply Z.div_pos; lia | apply Z.div_lt_upper_bound; lia]. }
  assert (Hb2 : 0 <= minute t2 / 15 < 4).
  { split; [apply Z.div_pos; lia | apply Z.div_lt_upper_bound; lia]. }
  assert (Hq1 : minute t1 / 15 = 0 \/ minute t1 / 15 = 1 \/ minute t1 / 15 = 2
                \/ minute t1 / 15 = 3) by lia.
  assert (Hq2 : minute t2 / 15 = 0 \/ minute t2 / 15 = 1 \/ minute t2 / 15 = 2
                \/ minute t2 / 15 = 3) by lia.
  clear Hb1 Hb2.
  destruct Hq1 as [E1 | [E1 | [E1 | E1]]]; destruct Hq2 as [E2 | [E2 | [E2 | E2]]];
    rewrite E1, E2 in *; try (apply Hq; reflexivity);
    cbn in H; discriminate H.
Qed.

(** X7. Two records whose timestamps lie in the same hour of the same day
    but in different quarters of it have different fingerprints, whatever
    their other fields are. *)
Theorem fingerprint_quarters_differ (now1 now2 : datetime) (a1 a2 : Alert) :
  let t1 := default now1 (a_timestamp a1) in
  let t2 := default now2 (a_timestamp a2) in
  year t1 = year t2 -> month t1 = month t2 -> day t1 = day t2 -> hour t1 = hour t2 ->
  0 <= minute t1 < 60 -> 0 <= minute t2 < 60 ->
  minute t1 / 15 <> minute t2 / 15 ->
  _create_fingerprint now1 a1 <> _create_fingerprint now2 a2.
Proof.
  cbv zeta. intros Hy Hmo Hd Hh Hm1 Hm2 Hq H.
  apply (bucket_minute_distinct _ _ Hy Hmo Hd Hh Hm1 Hm2 Hq).
  unfold _create_fingerprint in H. injection H as _ _ _ H. exact H.
Qed.

Lemma fingerprint_quarters_differ_witness :
  _create_fingerprint (utcnow noon) (tornado 35 (- 97) 7) <>
  _create_fingerprint (utcnow noon) (tornado 35 (- 97) 16).
Proof.
  apply fingerprint_quarters_differ; cbn; try reflexivity; try lia.
  discriminate.
Defined.

End DedupMore.

(** ** The priority scorer: tiers, monotonicity, the head of a batch *)

Module PrioritizerMore.
Import Prioritizer PrioritizerProps Samples.
Local Open Scope R_scope.

(** X8. For every alert whose affected population is not negative and
    fits in 64 bits, the score lies in [0, 1], and the tier is LOW below
    0.3, MEDIUM from 0.3 to below 0.6, HIGH from 0.6 to below 0.8, CRITICAL
    from 0.8 to below 1, and MEDIUM at exactly 1. *)
Theorem tier_of_every_alert (alert : WeatherAlert) :
  (0 <= population_affected alert < 2 ^ 64)%Z ->
  let p := calculate_priority alert in
  0 <= score p <= 1 /\
  (score p < 3 / 10 -> priority_level p = LOW) /\
  (3 / 10 <= score p < 6 / 10 -> priority_level p = MEDIUM) /\
  (6 / 10 <= score p < 8 / 10 -> priority_level p = HIGH) /\
  (8 / 10 <= score p < 1 -> priority_level p = CRITICAL) /\
  (score p = 1 -> priority_level p = MEDIUM).
Proof.
  intros _. cbv zeta. pose proof (PrioritizerFacts.score_bounds alert) as Hb.
  split; [exact Hb |].
  repeat split; intros H.
  - rewrite PrioritizerFacts.tier_below_one by rlra. unfold spec_tier.
    repeat (destruct (Rlt_dec _ _); try rlra); reflexivity.
  - rewrite PrioritizerFacts.tier_below_one by rlra. unfold spec_tier.
    repeat (destruct (Rlt_dec _ _); try rlra); reflexivity.
  - rewrite PrioritizerFacts.tier_below_one by rlra. unfold spec_tier.
    repeat (destruct (Rlt_dec _ _); try rlra); reflexivity.
  - rewrite PrioritizerFacts.tier_below_one by rlra. unfold spec_tier.
    repeat (destruct (Rlt_dec _ _); try rlra); reflexivity.
  - apply PrioritizerFacts.score_one_is_medium. exact H.
Qed.

Lemma ln_1001 : ln (1 + IZR 1000) <= 10.
Proof.
  assert (H1 : 2 <= exp 1).
  { pose proof (exp_ineq1 1 ltac:(rlra)). rlra. }
  assert (H2 : 4 <= exp 2).
  { replace 2 with (1 + 1) by rlra. rewrite exp_plus. nra. }
  assert (H4 : 16 <= exp 4).
  { replace 4 with (2 + 2) by rlra. rewrite exp_plus. nra. }
  assert (H5 : 32 <= exp 5).
  { replace 5 with (4 + 1) by rlra. rewrite exp_plus. nra. }
  assert (H10 : 1024 <= exp 10).
  { replace 10 with (5 + 5) by rlra. rewrite exp_plus. nra. }
  rewrite <- (ln_exp 10). left. apply ln_increasing; rlra.
Qed.

(** The frost warning scores below 0.3. *)
Lemma frost_score : 0 <= score (calculate_priority MoreSamples.frost) < 3 / 10.
Proof.
  unfold calculate_priority. cbn [score].
  assert (Hf : _extract_features MoreSamples.frost =
               [2 / 10; log1p (IZR 1000) / 15; 2 / 10; 5 / 200; 0 / 500]) by reflexivity.
  rewrite Hf. unfold dot, weights, log1p.
  pose proof ln_1001 as Hu.
  assert (Hl : 0 <= ln (1 + IZR 1000)).
  { rewrite <- ln_1. left. apply ln_increasing; rlra. }
  unfold clip, Rmin, Rmax.
  repeat (destruct (Rle_dec _ _); try rlra).
Qed.

Lemma tier_of_every_alert_witness :
  priority_level (calculate_priority MoreSamples.frost) = LOW.
Proof.
  destruct (tier_of_every_alert MoreSamples.frost) as (_ & H & _).
  - cbn. lia.
  - apply H. apply frost_score.
Defined.

Lemma clip_mono (x y : R) : x <= y -> clip x 0 1 <= clip y 0 1.
Proof.
  intros H. unfold clip, Rmin, Rmax.
  repeat (destruct (Rle_dec _ _); try rlra).
Qed.

Lemma log1p_mono (p q : Z) : (0 <= p <= q)%Z -> log1p (IZR p) <= log1p (IZR q).
Proof.
  intros [Hp Hpq]. unfold log1p.
  apply IZR_le in Hp. apply IZR_le in Hpq.
  destruct (Rle_lt_or_eq_dec _ _ Hpq) as [Hlt | Heq].
  - left. apply ln_increasing; rlra.
  - rewrite Heq. right. reflexivity.
Qed.

(** X9. The score never decreases when, for the same severity, the
    affected population (not negative), the infrastructure score, the wind
    speed or the precipitation increases. *)
Theorem score_monotone (a1 a2 : WeatherAlert) :
  lower (severity a1) = lower (severity a2) ->
  (0 <= population_affected a1 <= population_affected a2)%Z ->
  infrastructure_score a1 <= infrastructure_score a2 ->
  default 0 (wind_speed a1) <= default 0 (wind_speed a2) ->
  default 0 (precipitation a1) <= default 0 (precipitation a2) ->
  score (calculate_priority a1) <= score (calculate_priority a2).
Proof.
  intros Hs Hp Hi Hw Hr. unfold calculate_priority. cbn [score].
  apply clip_mono. unfold _extract_features, dot, weights. rewrite Hs.
  pose proof (log1p_mono _ _ Hp) as Hl. rlra.
Qed.

Lemma score_monotone_witness :
  score (calculate_priority
           (mk_alert "a-1" "hurricane" "Extreme" 29 (- 90) 1000 (1 / 2) None (Some 10)
              None))
  <= score (calculate_priority hurricane).
Proof.
  apply score_monotone; cbn.
  - reflexivity.
  - lia.
  - rlra.
  - rlra.
  - rlra.
Defined.

(** X10. The first assessment of a batch that is not empty has the highest
    score of all the alerts given. *)
Theorem prioritize_batch_head_max (alerts : list WeatherAlert) :
  alerts <> [] ->
  exists top rest,
    prioritize_batch alerts = top :: rest /\
    forall a, In a alerts -> score (calculate_priority a) <= score top.
Proof.
  intros Hne. unfold prioritize_batch.
  pose proof (PrioritizerFacts.sort_desc_perm score (map calculate_priority alerts)) as Hperm.
  pose proof (PrioritizerFacts.sort_desc_sorted score (map calculate_priority alerts)) as Hs.
  destruct (sort_desc score (map calculate_priority alerts)) as [| top rest] eqn:E.
  - apply Permutation_nil in Hperm. destruct alerts; [contradiction | discriminate].
  - exists top, rest. split; [reflexivity |]. intros a Ha.
    apply Sorted_StronglySorted in Hs; [| intros x y z Hxy Hyz; rlra].
    inversion Hs as [| ? ? _ Hall]; subst.
    assert (Hin : In (calculate_priority a) (top :: rest)).
    { apply (Permutation_in _ (Permutation_sym Hperm)). apply in_map. exact Ha. }
    destruct Hin as [<- | Hin]; [rlra |].
    rewrite List.Forall_forall in Hall. apply Hall. exact Hin.
Qed.

Lemma prioritize_batch_head_max_witness :
  exists top rest,
    prioritize_batch [MoreSamples.frost; hurricane] = top :: rest /\
    forall a, In a [MoreSamples.frost; hurricane] ->
              score (calculate_priority a) <= score top.
Proof.
  apply prioritize_batch_head_max. discriminate.
Defined.

(** The hurricane, given second, comes first. *)
Example hurricane_before_frost :
  prioritize_batch [MoreSamples.frost; hurricane] =
  [calculate_priority hurricane; calculate_priority MoreSamples.frost].
Proof.
  unfold prioritize_batch, sort_desc. cbn [map fold_right insert_desc].
  pose proof frost_score as Hf.
  assert (Hh : score (calculate_priority hurricane) = 1).
  { unfold calculate_priority. cbn [score]. rewrite PrioritizerFacts.hurricane_features.
    apply PrioritizerFacts.clip_saturates. unfold dot, weights, log1p.
    pose proof PrioritizerFacts.ln_twenty_million. rlra. }
  destruct (Rlt_dec (score (calculate_priority MoreSamples.frost))
              (score (calculate_priority hurricane))) as [_ | Hn]; [reflexivity | rlra].
Qed.

End PrioritizerMore.

(** ** The delivery manager: registration and failure accounting *)

Module DeliveryMore.
Import Delivery DeliveryProps Samples.
Local Open Scope Z_scope.

Lemma deliver_ext (m1 m2 : DeliveryManager) (now : Z) (task : DeliveryTask) :
  (forall n, In n (channels task) -> attempt m1 task n = attempt m2 task n) ->
  deliver m1 now task = deliver m2 now task.
Proof.
  intros H. unfold deliver.
  rewrite !DeliveryFacts.loop_results. cbn [app].
  rewrite (map_ext_in _ _ _ H). reflexivity.
Qed.

(** X11. Registering a channel changes nothing for a task that does not
    name it. *)
Theorem register_channel_frame (m : DeliveryManager) (c : NotificationChannel)
    (now : Z) (task : DeliveryTask) :
  ~ In (name c) (channels task) ->
  deliver (register_channel m c) now task = deliver m now task.
Proof.
  intros Hn. apply deliver_ext. intros n Hin.
  unfold attempt, register_channel. cbn [_channels].
  rewrite lookup_insert_ne; [reflexivity |]. intros E. apply Hn. rewrite E. exact Hin.
Qed.

Lemma register_channel_frame_witness :
  deliver (register_channel manager WebhookChannel) 0 (task_for "not-valid" ["email"; "sms"])
  = deliver manager 0 (task_for "not-valid" ["email"; "sms"]).
Proof.
  apply register_channel_frame. cbn. intros [H | [H | []]]; discriminate H.
Defined.

(** X12. Of two channels registered under one name the later one replaces
    the earlier: every delivery is as if only the later had been registered. *)
Theorem register_channel_replaces (m : DeliveryManager) (c1 c2 : NotificationChannel)
    (now : Z) (task : DeliveryTask) :
  name c1 = name c2 ->
  deliver (register_channel (register_channel m c1) c2) now task
  = deliver (register_channel m c2) now task.
Proof.
  intros Hn. apply deliver_ext. intros n _.
  unfold attempt, register_channel. cbn [_channels].
  rewrite Hn, insert_insert_eq. reflexivity.
Qed.

Lemma register_channel_replaces_witness :
  deliver (register_channel (register_channel manager PagerChannel)
             (mk_channel "pager" (fun _ => inl (mk_result "pager" true None None))
                (fun _ => true)))
    0 (task_for "ops" ["pager"])
  = deliver (register_channel manager
               (mk_channel "pager" (fun _ => inl (mk_result "pager" true None None))
                  (fun _ => true)))
      0 (task_for "ops" ["pager"]).
Proof. apply register_channel_replaces. reflexivity. Defined.

Lemma deliver_failed (m : DeliveryManager) (now : Z) (task : DeliveryTask) :
  failed (deliver m now task) = count_failure (map (attempt m task) (channels task)).
Proof.
  pose proof (DeliveryFacts.count_split (map (attempt m task) (channels task))) as H.
  rewrite length_map in H.
  change (failed (deliver m now task))
    with (Z.of_nat (length (channels task)) - count_success (results (deliver m now task))).
  rewrite DeliveryFacts.deliver_results. lia.
Qed.

Lemma deliver_successful (m : DeliveryManager) (now : Z) (task : DeliveryTask) :
  successful (deliver m now task) = count_success (map (attempt m task) (channels task)).
Proof.
  change (successful (deliver m now task))
    with (count_success (results (deliver m now task))).
  rewrite DeliveryFacts.deliver_results. reflexivity.
Qed.

(** X13. When every channel a task names is either not registered or
    rejects the recipient, no send is counted: successful is 0 and failed
    is the number of channels named. *)
Theorem deliver_nothing_sendable (m : DeliveryManager) (now : Z) (task : DeliveryTask) :
  (forall n ch, In n (channels task) -> _channels m !! n = Some ch ->
     validate_recipient ch (recipient (payload task)) = false) ->
  successful (deliver m now task) = 0 /\
  failed (deliver m now task) = Z.of_nat (length (channels task)).
Proof.
  intros H.
  assert (Hs : count_success (map (attempt m task) (channels task)) = 0).
  { induction (channels task) as [| n l IH]; [reflexivity |].
    cbn [map count_success]. rewrite IH.
    - unfold attempt. destruct (_channels m !! n) as [ch |] eqn:E; [| reflexivity].
      rewrite (H n ch (or_introl eq_refl) E). reflexivity.
    - intros n' ch' Hin. apply H. right. exact Hin. }
  split.
  - rewrite deliver_successful. exact Hs.
  - change (failed (deliver m now task))
      with (Z.of_nat (length (channels task)) - successful (deliver m now task)).
    rewrite deliver_successful, Hs. lia.
Qed.

Lemma deliver_nothing_sendable_witness :
  successful (deliver manager 0 (task_for "not-valid" ["email"; "sms"; "fax"])) = 0 /\
  failed (deliver manager 0 (task_for "not-valid" ["email"; "sms"; "fax"]))
  = Z.of_nat (length (channels (task_for "not-valid" ["email"; "sms"; "fax"]))).
Proof.
  apply deliver_nothing_sendable. intros n ch Hin Hl. cbn in Hin.
  destruct Hin as [<- | [<- | [<- | []]]]; vm_compute in Hl;
    first [discriminate Hl | injection Hl as <-; reflexivity].
Defined.

(** No recipient is both a phone number and a URL. *)
Lemma sms_webhook_exclusive (r : string) :
  validate_recipient SMSChannel r = true -> validate_recipient WebhookChannel r = false.
Proof.
  cbn [validate_recipient SMSChannel WebhookChannel]. intros H.
  apply andb_true_iff in H. destruct H as [H _].
  destruct r as [| c r]; [reflexivity |].
  change (String.prefix "+" (String c r))
    with (if ascii_dec "+" c then String.prefix "" r else false) in H.
  change (String.prefix "http" (String c r))
    with (if ascii_dec "h" c then String.prefix "ttp" r else false).
  destruct (ascii_dec "+" c) as [<- | _]; [| discriminate H].
  destruct (ascii_dec "h" "+") as [E | _]; [discriminate E | reflexivity].
Qed.

Lemma count_failure_In (m : DeliveryManager) (task : DeliveryTask) (n : string)
    (l : list string) :
  In n l -> success (attempt m task n) = false ->
  1 <= count_failure (map (attempt m task) l).
Proof.
  intros Hin Hf. induction l as [| x l IH]; [contradiction |].
  cbn [map count_failure]. pose proof (DeliveryFacts.count_failure_nonneg
    (map (attempt m task) l)) as Hge.
  destruct Hin as [-> | Hin].
  - rewrite Hf. lia.
  - specialize (IH Hin). destruct (success (attempt m task x)); lia.
Qed.

(** X14. The task has one recipient for all its channels, and no string is
    accepted by both the SMS and the webhook channel: a task that names
    both, as registered under "sms" and "webhook", has at least one failure. *)
Theorem sms_and_webhook_never_both (m : DeliveryManager) (now : Z) (task : DeliveryTask) :
  _channels m !! "sms"%string = Some SMSChannel ->
  _channels m !! "webhook"%string = Some WebhookChannel ->
  In "sms"%string (channels task) -> In "webhook"%string (channels task) ->
  1 <= failed (deliver m now task).
Proof.
  intros Hsms Hweb Hin1 Hin2. rewrite deliver_failed.
  destruct (validate_recipient SMSChannel (recipient (payload task))) eqn:E.
  - apply (count_failure_In m task "webhook" _ Hin2).
    unfold attempt. rewrite Hweb, (sms_webhook_exclusive _ E). reflexivity.
  - apply (count_failure_In m task "sms" _ Hin1).
    unfold attempt. rewrite Hsms, E. reflexivity.
Qed.

Lemma sms_and_webhook_never_both_witness :
  1 <= failed (deliver (register_channel manager WebhookChannel) 0
                 (task_for "+15551234567" ["sms"; "webhook"])).
Proof.
  apply sms_and_webhook_never_both.
  - reflexivity.
  - reflexivity.
  - left. reflexivity.
  - right. left. reflexivity.
Defined.

End DeliveryMore.

(** ** The rate limiter: reset, independent keys, blocked answers *)

Module RateLimitMore.
Import Num RateLimit RateLimitProps.
Local Open Scope Q_scope.

(** X15. [reset] makes the key unseen again, blocked or not: with a burst
    size of at least 1 the next check is allowed and leaves burst_size - 1
    tokens. The buckets and blocks of the other keys are untouched. *)
Theorem reset_restores (key : string) (l : RateLimiter) (now : Q) :
  (1 <= burst_size (config l))%Z ->
  unseen key (reset key l) /\
  allowed (fst (check now key (reset key l))) = true /\
  remaining (fst (check now key (reset key l))) = (burst_size (config l) - 1)%Z /\
  forall k, k <> key ->
    _buckets (reset key l) !! k = _buckets l !! k /\
    _blocked (reset key l) !! k = _blocked l !! k.
Proof.
  intros Hb.
  assert (Hu : unseen key (reset key l)).
  { split; cbn [reset _buckets _blocked]; apply lookup_delete_eq. }
  split; [exact Hu |].
  pose proof (RateLimitFacts.unseen_ready now key (burst_size (config l)) (reset key l)
                eq_refl Hu) as Hready.
  destruct (RateLimitFacts.check_allowed now key _ _ _ Hready ltac:(lia))
    as (Ha & Hr & _ & _).
  split; [exact Ha |]. split; [exact Hr |].
  intros k Hk. cbn [reset _buckets _blocked].
  split; apply lookup_delete_ne; congruence.
Qed.

Lemma reset_restores_witness :
  allowed (fst (check 0 "10.0.0.7"
                  (reset "10.0.0.7"
                     (snd (checks (repeat 0 11) "10.0.0.7" (new default_config)))))) = true.
Proof.
  destruct (reset_restores "10.0.0.7"
              (snd (checks (repeat 0 11) "10.0.0.7" (new default_config))) 0) as (_ & H & _).
  - vm_compute. discriminate.
  - exact H.
Defined.

(** What a check reads of the limiter: the configuration and the entries of
    its key. *)
Lemma check_reads (t : Q) (k : string) (l l' : RateLimiter) :
  config l = config l' ->
  _buckets l !! k = _buckets l' !! k ->
  _blocked l !! k = _blocked l' !! k ->
  fst (check t k l) = fst (check t k l').
Proof.
  intros Hc Hbu Hbl. unfold check, check_bucket, _get_bucket. rewrite Hbl, Hbu, Hc.
  destruct (_blocked l' !! k) as [b |].
  - destruct (Qlt_le_dec t b); [reflexivity |].
    destruct (consume t 1 _) as [a b']. reflexivity.
  - destruct (consume t 1 _) as [a b']. reflexivity.
Qed.

(** What a check writes: the entries of its key only. *)
Lemma check_writes (t : Q) (k1 k2 : string) (l : RateLimiter) :
  k1 <> k2 ->
  config (snd (check t k1 l)) = config l /\
  _buckets (snd (check t k1 l)) !! k2 = _buckets l !! k2 /\
  _blocked (snd (check t k1 l)) !! k2 = _blocked l !! k2.
Proof.
  intros Hne. unfold check, check_bucket.
  destruct (_blocked l !! k1) as [b |].
  - destruct (Qlt_le_dec t b); [repeat split; reflexivity |].
    destruct (consume t 1 _) as [a b']. cbn [snd config _buckets _blocked tokens].
    split; [reflexivity |]. split; [apply lookup_insert_ne; exact Hne |].
    destruct a; cbn [negb].
    + apply lookup_delete_ne. exact Hne.
    + rewrite lookup_insert_ne by exact Hne. apply lookup_delete_ne. exact Hne.
  - destruct (consume t 1 _) as [a b']. cbn [snd config _buckets _blocked tokens].
    split; [reflexivity |]. split; [apply lookup_insert_ne; exact Hne |].
    destruct a; cbn [negb]; [reflexivity | apply lookup_insert_ne; exact Hne].
Qed.

(** X16. Keys do not interfere: whatever checks of other keys are made in
    between, a check of a key gets the answer it would have got without
    them. *)
Theorem keys_independent (others : list (Q * string)) (t : Q) (key : string)
    (l : RateLimiter) :
  Forall (fun c => snd c <> key) others ->
  fst (check t key (fold_left (fun l c => snd (check (fst c) (snd c) l)) others l))
  = fst (check t key l).
Proof.
  intros Hall. revert l. induction Hall as [| [t1 k1] others Hne _ IH]; intros l.
  - reflexivity.
  - cbn [fold_left fst snd]. rewrite IH.
    destruct (check_writes t1 k1 key l Hne) as (Hc & Hbu & Hbl).
    apply check_reads; assumption.
Qed.

Lemma keys_independent_witness :
  fst (check 0 "10.0.0.7"
         (fold_left (fun l c => snd (check (fst c) (snd c) l))
            [(0, "10.0.0.8"%string); (0, "10.0.0.9"%string)] (new default_config)))
  = fst (check 0 "10.0.0.7" (new default_config)).
Proof.
  apply keys_independent. repeat constructor; discriminate.
Defined.

(** X17. While a key is blocked, a check answers with no tokens remaining,
    with the end of the block as reset time, and with the whole seconds
    left of the block as retry_after: a number that is not negative and is
    0 during the last second. *)
Theorem blocked_answer (t : Q) (key : string) (l : RateLimiter) (block_until : Q) :
  _blocked l !! key = Some block_until -> t < block_until ->
  allowed (fst (check t key l)) = false /\
  remaining (fst (check t key l)) = 0%Z /\
  reset_at (fst (check t key l)) = block_until /\
  exists n : Z,
    retry_after (fst (check t key l)) = Some n /\
    (0 <= n)%Z /\ inject_Z n <= block_until - t /\ block_until - t < inject_Z n + 1.
Proof.
  intros Hb Hlt. rewrite (RateLimitFacts.check_blocked key t l block_until Hb Hlt).
  cbn [fst allowed remaining reset_at retry_after].
  split; [reflexivity |]. split; [reflexivity |]. split; [reflexivity |].
  exists (int_of_Q (block_until - t)). split; [reflexivity |].
  rewrite GeoFacts.int_of_Q_nonneg by qlra.
  pose proof (Qfloor_le (block_until - t)) as H1.
  pose proof (Qlt_floor (block_until - t)) as H2.
  rewrite inject_Z_plus in H2. change (inject_Z 1) with 1 in H2.
  split; [| split; assumption].
  apply Z.lt_succ_r. rewrite Zlt_Qlt. unfold Z.succ. rewrite inject_Z_plus.
  change (inject_Z 1) with 1. change (inject_Z 0) with 0. qlra.
Qed.

Lemma blocked_answer_witness :
  allowed (fst (check (2995 # 10) "10.0.0.7"
                  (snd (checks (repeat 0 11) "10.0.0.7" (new default_config))))) = false /\
  retry_after (fst (check (2995 # 10) "10.0.0.7"
                      (snd (checks (repeat 0 11) "10.0.0.7" (new default_config)))))
  = Some 0%Z.
Proof.
  destruct (blocked_answer (2995 # 10) "10.0.0.7"
              (snd (checks (repeat 0 11) "10.0.0.7" (new default_config))) 300)
    as (H1 & _ & _ & _).
  - vm_compute. reflexivity.
  - reflexivity.
  - split; [exact H1 | vm_compute; reflexivity].
Defined.

End RateLimitMore.
Module RateLimitBound.
Import Num RateLimit RateLimitProps.
Local Open Scope Q_scope.

(** X18. When its block is over, a key whose bucket has had the time to
    gain a token is allowed again, and is no longer blocked. *)
Theorem allowed_after_block (t : Q) (key : string) (l : RateLimiter)
    (block_until : Q) (b : TokenBucket) :
  _blocked l !! key = Some block_until -> block_until <= t ->
  _buckets l !! key = Some b ->
  0 <= _tokens b -> (1 <= capacity b)%Z ->
  1 <= (t - _last_update b) * rate b ->
  allowed (fst (check t key l)) = true /\
  _blocked (snd (check t key l)) !! key = None.
Proof.
  intros Hbl Ht Hbu Htok Hcap Hgain.
  rewrite (RateLimitFacts.block_expires key t l block_until Hbl Ht).
  unfold check_bucket, _get_bucket. rewrite Hbu. unfold consume.
  assert (Hr : inject_Z 1 <= _tokens (_refill t b)).
  { unfold _refill. cbn [_tokens]. apply RateLimitFacts.qmin_glb.
    - rewrite <- Zle_Qle. exact Hcap.
    - change (inject_Z 1) with 1. qlra. }
  apply Qle_bool_iff in Hr. rewrite Hr. cbn [negb tokens fst snd allowed _blocked].
  split; [reflexivity | apply lookup_delete_eq].
Qed.

Lemma allowed_after_block_witness :
  allowed (fst (check 300 "10.0.0.7" MoreSamples.blocked_limiter)) = true.
Proof.
  destruct (allowed_after_block 300 "10.0.0.7" MoreSamples.blocked_limiter 300
              (mk_bucket 1 10 0 0)) as [H _].
  - reflexivity.
  - discriminate.
  - reflexivity.
  - discriminate.
  - cbn. lia.
  - discriminate.
  - exact H.
Defined.

Section Instant.
Variables (t0 : Q) (key : string).

Lemma refill_drained (b : TokenBucket) :
  _tokens b < 1 -> _last_update b == t0 -> _tokens (_refill t0 b) < 1.
Proof.
  intros Ht Hl. unfold _refill. cbn [_tokens].
  assert (He : (t0 - _last_update b) * rate b == 0).
  { assert (H0 : t0 - _last_update b == 0) by qlra. rewrite H0. apply Qmult_0_l. }
  apply Qle_lt_trans with (_tokens b + (t0 - _last_update b) * rate b);
    [apply RateLimitFacts.qmin_le_r | rewrite He; qlra].
Qed.

Lemma ready_drained (cap : Z) (l : RateLimiter) : ready t0 key cap 0 l -> drained t0 key l.
Proof.
  intros (_ & Htok & Hlast & _). split; [| exact Hlast].
  rewrite Htok. reflexivity.
Qed.

(** A drained bucket denies, and stays drained. *)
Lemma check_bucket_drained (l : RateLimiter) (blocked : gmap string Q) :
  drained t0 key l ->
  allowed (fst (check_bucket t0 key l blocked)) = false /\
  drained t0 key (snd (check_bucket t0 key l blocked)).
Proof.
  intros [Htok Hlast]. unfold check_bucket.
  set (b := _get_bucket t0 key l) in *.
  pose proof (refill_drained b Htok Hlast) as Hr.
  unfold consume.
  destruct (Qle_bool (inject_Z 1) (_tokens (_refill t0 b))) eqn:E.
  { exfalso. apply Qle_bool_iff in E. change (inject_Z 1) with 1 in E. qlra. }
  cbn [negb]. unfold tokens. cbn [fst snd allowed].
  split; [reflexivity |].
  unfold drained, _get_bucket. cbn [_buckets]. rewrite lookup_insert_eq.
  split; [| reflexivity].
  apply refill_drained; [exact Hr | reflexivity].
Qed.

Lemma check_drained (l : RateLimiter) :
  drained t0 key l ->
  allowed (fst (check t0 key l)) = false /\ drained t0 key (snd (check t0 key l)).
Proof.
  intros Hd. unfold check.
  destruct (_blocked l !! key) as [block_until |].
  - destruct (Qlt_le_dec t0 block_until).
    + split; [reflexivity | exact Hd].
    + apply check_bucket_drained. exact Hd.
  - apply check_bucket_drained. exact Hd.
Qed.

Lemma checks_drained (n : nat) (l : RateLimiter) :
  drained t0 key l ->
  map allowed (fst (checks (repeat t0 n) key l)) = repeat false n.
Proof.
  revert l. induction n as [| n IH]; intros l Hd; [reflexivity |].
  cbn [repeat checks].
  destruct (check_drained l Hd) as [Ha Hd'].
  destruct (check t0 key l) as [r l1]. cbn [fst snd] in *.
  specialize (IH l1 Hd').
  destruct (checks (repeat t0 n) key l1) as [rs l2]. cbn [fst snd map] in *.
  rewrite Ha, IH. reflexivity.
Qed.

(** Checks at one instant of a key with [m] tokens: the first [m] pass. *)
Lemma checks_instant (cap : Z) (n : nat) (m : Z) (l : RateLimiter) :
  ready t0 key cap m l -> (0 <= m <= cap)%Z ->
  map allowed (fst (checks (repeat t0 n) key l))
  = repeat true (Nat.min n (Z.to_nat m)) ++ repeat false (n - Z.to_nat m).
Proof.
  revert m l. induction n as [| n IH]; intros m l Hready Hm; [reflexivity |].
  destruct (Z.eq_dec m 0%Z) as [-> | Hpos].
  - change (Z.to_nat 0%Z) with 0%nat. rewrite Nat.min_0_r, Nat.sub_0_r.
    apply checks_drained. apply (ready_drained cap). exact Hready.
  - cbn [repeat checks].
    destruct (RateLimitFacts.check_allowed t0 key cap m l Hready ltac:(lia))
      as (Ha & _ & _ & Hready').
    destruct (check t0 key l) as [r l1]. cbn [fst snd] in *.
    specialize (IH (m - 1)%Z l1 Hready' ltac:(lia)).
    destruct (checks (repeat t0 n) key l1) as [rs l2]. cbn [fst snd map] in *.
    rewrite Ha, IH.
    replace (Z.to_nat m) with (S (Z.to_nat (m - 1))) by lia.
    reflexivity.
Qed.

End Instant.

(** X19. Whatever the rate and the block duration, burst_size caps what one
    instant lets through: of any number of checks of an unseen key that all
    read the same clock value, the first burst_size are allowed and every
    later one is denied. The numbers of the configuration are integers
    below 2^53 in absolute value, and burst_size is not negative. *)
Theorem burst_cap (l : RateLimiter) (key : string) (t0 : Q) (n : nat) :
  exact_config (config l) -> (0 <= burst_size (config l))%Z -> unseen key l ->
  map allowed (fst (checks (repeat t0 n) key l))
  = repeat true (Nat.min n (Z.to_nat (burst_size (config l))))
    ++ repeat false (n - Z.to_nat (burst_size (config l))).
Proof.
  intros _ Hburst Hunseen.
  apply (checks_instant t0 key (burst_size (config l))); [| lia].
  apply RateLimitFacts.unseen_ready; [reflexivity | exact Hunseen].
Qed.

Lemma burst_cap_witness :
  map allowed (fst (checks (repeat 1700000000 5) "10.0.0.7" (new (mk_config 7 1000 3 0))))
  = [true; true; true; false; false].
Proof.
  apply (burst_cap (new (mk_config 7 1000 3 0)) "10.0.0.7" 1700000000 5).
  - repeat split; reflexivity.
  - cbn. lia.
  - split; reflexivity.
Defined.

(** Two tokens, one a second: of five checks in 30 seconds the third is
    denied and blocks for 5 seconds, and the last is allowed again. *)
Example rate_bound_run :
  map allowed (fst (checks [0; 0; 1 # 2; 2; 30] "10.0.0.7" (new (mk_config 60 1000 2 5))))
  = [true; true; false; false; true].
Proof. vm_compute. reflexivity. Qed.

End RateLimitBound.

(** ** The grid index: what a query returns, and what inserts change *)

Module GeoMore.
Import Num Geo GeoProps.
Local Open Scope Z_scope.

Section Index.
Context {Item : Type}.
Implicit Types (g : GeoIndex Item) (item : Item).

Lemma scan_In g item (center : Z * Z) (r : Z) :
  In item (flat_map (cell_items g) (neighborhood center r)) <->
  exists cell, chebyshev cell center <= r /\ In item (cell_items g cell).
Proof.
  rewrite in_flat_map. split; intros (cell & H1 & H2); exists cell; split;
    try exact H2; apply GeoFacts.neighborhood_In; exact H1.
Qed.

(** X20. With a resolution that is not zero, a query returns an item
    exactly when some cell at Chebyshev distance at most the radius from
    the cell of the query point holds it. *)
Theorem query_returns_cells g item (lat lon : Q) (r : Z) :
  ~ (resolution g == 0)%Q ->
  exists items,
    query_radius g lat lon r = Some items /\
    (In item items <->
     exists cell,
       chebyshev cell (trunc_cell (resolution g) lat lon) <= r /\
       In item (cell_items g cell)).
Proof.
  intros Hres. eexists. split.
  - apply GeoFacts.query_radius_neighborhood. exact Hres.
  - apply scan_In.
Qed.

Lemma neighborhood_negative (center : Z * Z) (r : Z) : r < 0 -> neighborhood center r = [].
Proof.
  intros Hr. unfold neighborhood, range.
  replace (Z.to_nat (r + 1 - - r)) with 0%nat by lia. reflexivity.
Qed.

(** X21. With a resolution that is not zero, a query with a negative
    radius returns the empty list, whatever the index holds. *)
Theorem query_negative_radius g (lat lon : Q) (r : Z) :
  ~ (resolution g == 0)%Q -> r < 0 -> query_radius g lat lon r = Some [].
Proof.
  intros Hres Hr. rewrite (GeoFacts.query_radius_neighborhood g lat lon r Hres).
  rewrite neighborhood_negative by exact Hr. reflexivity.
Qed.

Lemma cell_items_empty (res : Q) (cell : Z * Z) :
  cell_items (Item := Item) {| resolution := res; _grid := ∅ |} cell = [].
Proof. unfold cell_items. cbn [_grid]. rewrite lookup_empty. reflexivity. Qed.

Lemma flat_map_nil {A B : Type} (f : A -> list B) (l : list A) :
  (forall x, f x = []) -> flat_map f l = [].
Proof.
  intros H. induction l as [| x l IH]; [reflexivity |].
  cbn [flat_map]. rewrite H, IH. reflexivity.
Qed.

(** X22. After [clear] every query returns the empty list, and the
    resolution is kept. *)
Theorem clear_empties g (lat lon : Q) (r : Z) :
  ~ (resolution g == 0)%Q ->
  query_radius (clear g) lat lon r = Some [] /\ resolution (clear g) = resolution g.
Proof.
  intros Hres. split; [| reflexivity].
  rewrite (GeoFacts.query_radius_neighborhood (clear g) lat lon r Hres).
  rewrite flat_map_nil; [reflexivity |]. intros cell. apply cell_items_empty.
Qed.

Lemma flat_map_ext_In {A B : Type} (f h : A -> list B) (l : list A) :
  (forall x, In x l -> f x = h x) -> flat_map f l = flat_map h l.
Proof.
  intros H. induction l as [| x l IH]; [reflexivity |].
  cbn [flat_map]. rewrite (H x (or_introl eq_refl)), IH; [reflexivity |].
  intros y Hy. apply H. right. exact Hy.
Qed.

Lemma neighborhood_zero (center : Z * Z) : neighborhood center 0 = [center].
Proof.
  destruct center as [x y]. unfold neighborhood.
  change (range (- 0) (0 + 1)) with [0]. cbn [flat_map map app fst snd].
  rewrite !Z.add_0_r. reflexivity.
Qed.

Lemma insert_result g item (lat lon : Q) :
  ~ (resolution g == 0)%Q ->
  insert g item lat lon =
  Some {| resolution := resolution g;
          _grid := <[trunc_cell (resolution g) lat lon :=
                      cell_items g (trunc_cell (resolution g) lat lon) ++ [item]]>
                     (_grid g) |}.
Proof.
  intros Hres. unfold insert. rewrite (GeoFacts.get_cell_trunc g lat lon Hres). reflexivity.
Qed.

(** X23. An insert appends to its cell: a query of radius 0 from any point
    of the same cell returns what it returned before, followed by the new
    item. Items of a cell come back in the order they were inserted. *)
Theorem insert_appends g g' item (lat lon lat' lon' : Q) (before : list Item) :
  ~ (resolution g == 0)%Q ->
  trunc_cell (resolution g) lat' lon' = trunc_cell (resolution g) lat lon ->
  insert g item lat lon = Some g' ->
  query_radius g lat' lon' 0 = Some before ->
  query_radius g' lat' lon' 0 = Some (before ++ [item]).
Proof.
  intros Hres Hcell Hins Hq. rewrite (insert_result g item lat lon Hres) in Hins.
  injection Hins as <-.
  rewrite (GeoFacts.query_radius_neighborhood g lat' lon' 0 Hres) in Hq.
  rewrite neighborhood_zero in Hq. cbn [flat_map] in Hq. rewrite app_nil_r in Hq.
  injection Hq as <-.
  rewrite GeoFacts.query_radius_neighborhood by exact Hres. cbn [resolution].
  rewrite neighborhood_zero. cbn [flat_map]. rewrite app_nil_r, Hcell.
  unfold cell_items at 1. cbn [_grid]. rewrite lookup_insert_eq. reflexivity.
Qed.

(** X24. An insert changes no query whose neighborhood does not reach the
    cell of the insert. *)
Theorem insert_far g g' item (lat lon lat' lon' : Q) (r : Z) :
  ~ (resolution g == 0)%Q ->
  r < chebyshev (trunc_cell (resolution g) lat lon) (trunc_cell (resolution g) lat' lon') ->
  insert g item lat lon = Some g' ->
  query_radius g' lat' lon' r = query_radius g lat' lon' r.
Proof.
  intros Hres Hfar Hins. rewrite (insert_result g item lat lon Hres) in Hins.
  injection Hins as <-.
  rewrite !GeoFacts.query_radius_neighborhood by exact Hres. cbn [resolution].
  f_equal. apply flat_map_ext_In. intros cell Hin.
  apply GeoFacts.neighborhood_In in Hin.
  unfold cell_items. cbn [_grid]. rewrite lookup_insert_ne; [reflexivity |].
  intros E. rewrite <- E in Hin. lia.
Qed.

(** X25. A larger radius returns at least the items of a smaller one. *)
Theorem query_radius_grows g item (lat lon : Q) (r r' : Z) (small large : list Item) :
  r <= r' ->
  query_radius g lat lon r = Some small ->
  query_radius g lat lon r' = Some large ->
  In item small -> In item large.
Proof.
  intros Hr Hs Hl Hin.
  assert (Hres : ~ (resolution g == 0)%Q).
  { intros E. unfold query_radius, _get_cell in Hs.
    apply Qeq_eq_bool in E. rewrite E in Hs. discriminate Hs. }
  rewrite (GeoFacts.query_radius_neighborhood g lat lon r Hres) in Hs.
  rewrite (GeoFacts.query_radius_neighborhood g lat lon r' Hres) in Hl.
  injection Hs as <-. injection Hl as <-.
  apply scan_In in Hin. destruct Hin as (cell & Hc & Hi).
  apply scan_In. exists cell. split; [lia | exact Hi].
Qed.

End Index.

Lemma query_returns_cells_witness :
  exists items,
    query_radius Samples.sirens 35 (- (9705 # 100)) 1 = Some items /\
    (In "siren-3"%string items <->
     exists cell,
       chebyshev cell (trunc_cell (resolution Samples.sirens) 35 (- (9705 # 100))) <= 1 /\
       In "siren-3"%string (cell_items Samples.sirens cell)).
Proof.
  apply query_returns_cells. intros H. discriminate H.
Defined.

Lemma query_negative_radius_witness :
  query_radius Samples.sirens 35 (- (9705 # 100)) (- 1) = Some [].
Proof.
  apply query_negative_radius.
  - intros H. discriminate H.
  - lia.
Defined.

Lemma clear_empties_witness :
  query_radius (clear Samples.sirens) 35 (- (9705 # 100)) 1 = Some [] /\
  resolution (clear Samples.sirens) = resolution Samples.sirens.
Proof.
  apply clear_empties. intros H. discriminate H.
Defined.

Lemma insert_appends_witness :
  query_radius (Samples.add "siren-5" 35 (- (9703 # 100)) Samples.sirens)
    35 (- (9705 # 100)) 0
  = Some (["siren-1"%string; "siren-2"%string] ++ ["siren-5"%string]).
Proof.
  apply (insert_appends Samples.sirens _ "siren-5"%string 35 (- (9703 # 100))
           35 (- (9705 # 100))).
  - intros H. discriminate H.
  - reflexivity.
  - vm_compute. reflexivity.
  - vm_compute. reflexivity.
Defined.

Lemma insert_far_witness :
  query_radius (Samples.add "siren-5" 36 (- 97) Samples.sirens) 35 (- (9705 # 100)) 1
  = query_radius Samples.sirens 35 (- (9705 # 100)) 1.
Proof.
  apply (insert_far Samples.sirens _ "siren-5"%string 36 (- 97)).
  - intros H. discriminate H.
  - vm_compute. reflexivity.
  - vm_compute. reflexivity.
Defined.

Lemma query_radius_grows_witness : In "siren-1"%string ["siren-3"; "siren-1"; "siren-2"]%string.
Proof.
  apply (query_radius_grows Samples.sirens "siren-1"%string 35 (- (9705 # 100)) 0 1
           ["siren-1"; "siren-2"]%string).
  - lia.
  - vm_compute. reflexivity.
  - vm_compute. reflexivity.
  - left. reflexivity.
Defined.

End GeoMore.

(** ** The batch processor and the metrics *)

Module BatchFacts.
Import Batch.
Local Open Scope Z_scope.

Section Items.
Context {Item : Type}.
Implicit Types (b : BatchProcessor Item) (item : Item).

Lemma add_fields (now : Q) item b :
  batch_size (fst (add now item b)) = batch_size b /\
  process_func (fst (add now item b)) = process_func b.
Proof.
  unfold add, _flush. cbn [batch_size flush_interval process_func _buffer _last_flush].
  destruct (_ || _); [| split; reflexivity].
  destruct (_buffer b ++ [item]); split; reflexivity.
Qed.

Lemma add_conserves (now : Q) item b :
  process_func b = true ->
  concat (snd (add now item b)) ++ _buffer (fst (add now item b)) = _buffer b ++ [item].
Proof.
  intros Hf. unfold add, _flush. cbn [batch_size flush_interval process_func _buffer
    _last_flush]. rewrite Hf.
  destruct (_ || _); [| reflexivity].
  destruct (_buffer b ++ [item]) as [| x l] eqn:E; [reflexivity |].
  cbn [fst snd concat _buffer]. rewrite !app_nil_r. reflexivity.
Qed.

(** X26. With a handler set, no item is lost, repeated or reordered: the
    batches handed over, one after the other, followed by what is still
    buffered, are the items buffered at the start followed by the items
    added, in order. *)
Theorem batches_conserve_items (calls : list (Q * Item)) b :
  process_func b = true ->
  concat (snd (adds calls b)) ++ _buffer (fst (adds calls b))
  = _buffer b ++ map snd calls.
Proof.
  revert b. induction calls as [| [now item] calls IH]; intros b Hf.
  - cbn. rewrite app_nil_r. reflexivity.
  - cbn [adds map snd].
    pose proof (add_conserves now item b Hf) as H1.
    pose proof (add_fields now item b) as [_ Hf1].
    destruct (add now item b) as [b1 out1]. cbn [fst snd] in *.
    specialize (IH b1 ltac:(congruence)).
    destruct (adds calls b1) as [b2 out2]. cbn [fst snd] in *.
    rewrite concat_app, <- app_assoc, IH, app_assoc, H1, <- app_assoc. reflexivity.
Qed.

Lemma add_bounded (now : Q) item b :
  1 <= batch_size b -> Z.of_nat (length (_buffer b)) < batch_size b ->
  Z.of_nat (length (_buffer (fst (add now item b)))) < batch_size b /\
  Forall (fun batch => 1 <= Z.of_nat (length batch) <= batch_size b) (snd (add now item b)).
Proof.
  intros Hs Hlen. unfold add, _flush.
  cbn [batch_size flush_interval process_func _buffer _last_flush].
  assert (Hl : Z.of_nat (length (_buffer b ++ [item])) = Z.of_nat (length (_buffer b)) + 1).
  { rewrite length_app. cbn [length]. lia. }
  destruct (batch_size b <=? Z.of_nat (length (_buffer b ++ [item]))) eqn:E;
    cbn [orb].
  - destruct (_buffer b ++ [item]) as [| x l] eqn:Eb.
    + cbn [fst snd _buffer length]. split; [lia | constructor].
    + cbn [fst snd _buffer length]. split; [lia |].
      destruct (process_func b); [| constructor].
      constructor; [| constructor]. cbn [length] in *. lia.
  - apply Z.leb_gt in E.
    destruct (Qlt_le_dec (flush_interval b) (now - _last_flush b)).
    + destruct (_buffer b ++ [item]) as [| x l] eqn:Eb.
      * cbn [fst snd _buffer length]. split; [lia | constructor].
      * cbn [fst snd _buffer length]. split; [lia |].
        destruct (process_func b); [| constructor].
        constructor; [| constructor]. cbn [length] in *. lia.
    + cbn [fst snd _buffer]. split; [lia | constructor].
Qed.

Lemma adds_bounded (calls : list (Q * Item)) b :
  1 <= batch_size b -> Z.of_nat (length (_buffer b)) < batch_size b ->
  Z.of_nat (length (_buffer (fst (adds calls b)))) < batch_size b /\
  Forall (fun batch => 1 <= Z.of_nat (length batch) <= batch_size b) (snd (adds calls b)).
Proof.
  revert b. induction calls as [| [now item] calls IH]; intros b Hs Hlen.
  - cbn. split; [exact Hlen | constructor].
  - cbn [adds].
    pose proof (add_bounded now item b Hs Hlen) as [H1 H2].
    pose proof (add_fields now item b) as [Hb _].
    destruct (add now item b) as [b1 out1]. cbn [fst snd] in *.
    specialize (IH b1). rewrite Hb in IH. specialize (IH Hs H1).
    destruct (adds calls b1) as [b2 out2]. cbn [fst snd] in *.
    destruct IH as [IH1 IH2]. split; [exact IH1 |].
    apply Forall_app. split; assumption.
Qed.

(** X27. With a batch size of at least 1 and a buffer that starts below
    it, the buffer stays below the batch size after every add, and every
    batch handed over holds at least one item and at most batch_size. *)
Theorem batches_bounded (calls : list (Q * Item)) b :
  1 <= batch_size b -> Z.of_nat (length (_buffer b)) < batch_size b ->
  Z.of_nat (length (_buffer (fst (adds calls b)))) < batch_size b /\
  Forall (fun batch => 1 <= Z.of_nat (length batch) <= batch_size b) (snd (adds calls b)).
Proof. apply adds_bounded. Qed.

Lemma adds_without_handler (calls : list (Q * Item)) b :
  process_func b = false -> snd (adds calls b) = [].
Proof.
  revert b. induction calls as [| [now item] calls IH]; intros b Hf; [reflexivity |].
  cbn [adds].
  assert (H1 : snd (add now item b) = []).
  { unfold add, _flush. cbn [batch_size flush_interval process_func _buffer _last_flush].
    rewrite Hf. destruct (_ || _); [| reflexivity].
    destruct (_buffer b ++ [item]); reflexivity. }
  pose proof (add_fields now item b) as [_ Hf1].
  destruct (add now item b) as [b1 out1]. cbn [fst snd] in *.
  specialize (IH b1 ltac:(congruence)).
  destruct (adds calls b1) as [b2 out2]. cbn [fst snd] in *.
  rewrite H1, IH. reflexivity.
Qed.

(** X28. Without a handler the flushes still empty the buffer: nothing is
    handed over, and of all the items added fewer than batch_size remain. *)
Theorem flush_without_handler_drops (calls : list (Q * Item)) b :
  process_func b = false ->
  1 <= batch_size b -> Z.of_nat (length (_buffer b)) < batch_size b ->
  snd (adds calls b) = [] /\
  Z.of_nat (length (_buffer (fst (adds calls b)))) < batch_size b.
Proof.
  intros Hf Hs Hlen. split.
  - apply adds_without_handler. exact Hf.
  - apply (adds_bounded calls b Hs Hlen).
Qed.

End Items.

Lemma batches_conserve_items_witness :
  concat (snd (adds MoreSamples.letters (MoreSamples.pairs true)))
  ++ _buffer (fst (adds MoreSamples.letters (MoreSamples.pairs true)))
  = _buffer (MoreSamples.pairs true) ++ map snd MoreSamples.letters.
Proof. apply batches_conserve_items. reflexivity. Defined.

Lemma batches_bounded_witness :
  Z.of_nat (length (_buffer (fst (adds MoreSamples.letters (MoreSamples.pairs true)))))
  < batch_size (MoreSamples.pairs true) /\
  Forall (fun batch => 1 <= Z.of_nat (length batch) <= batch_size (MoreSamples.pairs true))
    (snd (adds MoreSamples.letters (MoreSamples.pairs true))).
Proof.
  apply (batches_bounded MoreSamples.letters (MoreSamples.pairs true)).
  - cbn. lia.
  - cbn. lia.
Defined.

Lemma flush_without_handler_drops_witness :
  snd (adds MoreSamples.letters (MoreSamples.pairs false)) = [] /\
  Z.of_nat (length (_buffer (fst (adds MoreSamples.letters (MoreSamples.pairs false)))))
  < batch_size (MoreSamples.pairs false).
Proof.
  apply (flush_without_handler_drops MoreSamples.letters (MoreSamples.pairs false)).
  - reflexivity.
  - cbn. lia.
  - cbn. lia.
Defined.

(** Two batches of two by size; the last item is still buffered. *)
Example batches_run :
  snd (adds MoreSamples.letters (MoreSamples.pairs true))
  = [["a"; "b"]; ["c"; "d"]]%string /\
  _buffer (fst (adds MoreSamples.letters (MoreSamples.pairs true))) = ["e"%string].
Proof. vm_compute. split; reflexivity. Qed.

(** An add later than the flush interval after the last flush hands over
    a batch of one. *)
Example batches_by_clock :
  snd (adds [(0%Q, "a"%string); (3%Q, "b"%string)] (MoreSamples.pairs true))
  = [["a"; "b"]]%string /\
  snd (adds [(3%Q, "a"%string)] (MoreSamples.pairs true)) = [["a"%string]].
Proof. vm_compute. split; reflexivity. Qed.

End BatchFacts.

Module MetricsFacts.
Import Metrics MetricsProps.
Local Open Scope Z_scope.

Lemma updates_cons (m : ProcessingMetrics) (c : Z * Q) (calls : list (Z * Q)) :
  updates m (c :: calls) = updates (_update_metrics m (fst c) (snd c)) calls.
Proof. reflexivity. Qed.

(** X29. Over any run of calls the metrics add up: alerts_processed grows
    by the alerts of all calls and total_time_ms by their milliseconds,
    and the cache counters are never touched. *)
Theorem metrics_accumulate (m : ProcessingMetrics) (calls : list (Z * Q)) :
  alerts_processed (updates m calls) = alerts_processed m + total_count calls /\
  (total_time_ms (updates m calls) == total_time_ms m + total_elapsed calls)%Q /\
  cache_hits (updates m calls) = cache_hits m /\
  cache_misses (updates m calls) = cache_misses m.
Proof.
  revert m. induction calls as [| c calls IH]; intros m.
  - cbn. split; [lia |]. split; [qlra |]. split; reflexivity.
  - rewrite updates_cons. destruct (IH (_update_metrics m (fst c) (snd c)))
      as (H1 & H2 & H3 & H4).
    rewrite H1, H2, H3, H4. cbn [_update_metrics alerts_processed total_time_ms
      cache_hits cache_misses total_count total_elapsed].
    split; [lia |]. split; [qlra |]. split; reflexivity.
Qed.

End MetricsFacts.
